(** * Fleet manager of the Bedrock server client: model and properties

    A shallow embedding of [internal/server/manager.go] (package [server]),
    with the parts of [internal/config] and [internal/github] it relies on.

    - Go [int]/[int64] values are [Z]; the arithmetic that the code performs
      on them is written with its 64-bit wrap-around.
    - Go [string]s are byte strings: [string] with [String.length] in bytes.
    - [map[string]*MinecraftServer] is a [gmap string MinecraftServer]; every
      [*MinecraftServer] is referenced from the map only, so the record stored
      in the map is the object itself.
    - [*config.MinecraftServerConfig] pointers are addresses into a store of
      cells ([cells]): [updateServers] takes the address of its range
      variable, which under the module's language version (go 1.21) is one
      variable for the whole loop.
    - the outside world (GitHub, the file system, [exec]) is explicit: fetch
      results are arguments, the files are a [gmap string (list byte)], and
      what a tick does to the outside is recorded in a trace of [Action]s.
    - wall-clock time ([StartTime], [time.Sleep]) is not modelled. *)

From Stdlib Require Import ZArith Lia.
From Stdlib.Strings Require Import Byte Ascii.
From stdpp Require Import gmap strings list fin_maps pretty relations.

Local Open Scope string_scope.
Local Open Scope list_scope.
Local Open Scope Z_scope.

(** ** Go values *)

(** Go's [error] interface: [nil] is [None], an error carries its message. *)
Definition error : Type := string.

(** A Go result pair [(v, err)] with the usual discipline: exactly one side. *)
Inductive result (A : Type) : Type :=
| Ok (v : A)
| Err (e : error).
Arguments Ok {A} v.
Arguments Err {A} e.

(** A call either returns or panics (a run-time panic is not recovered
    anywhere in the package, so it ends the program). *)
Inductive outcome (A : Type) : Type :=
| Returns (v : A)
| Panics (msg : string).
Arguments Returns {A} v.
Arguments Panics {A} msg.

(** Two's-complement wrap-around of a 64-bit Go [int]. *)
Definition int_wrap (z : Z) : Z := (z + 2 ^ 63) mod 2 ^ 64 - 2 ^ 63.
Definition int_add (a b : Z) : Z := int_wrap (a + b).
Definition int_sub (a b : Z) : Z := int_wrap (a - b).
Definition int_mul (a b : Z) : Z := int_wrap (a * b).

(** ** Package [config] *)
Module config.

Record ServerConfig := {
  BaseDir : string;
  MaxInstances : Z;
  BedrockPath : string;
  MemoryLimit : string;
  (* declared in the revision of the package that the manager is
     compiled against; read by pollConfiguration *)
  FirstRun : bool
}.

Record GitHubConfig := {
  RepoOwner : string;
  RepoName : string;
  Branch : string;
  ConfigPath : string;
  PollInterval : Z
}.

Record Config := {
  GitHub : GitHubConfig;
  Server : ServerConfig
}.

(** The fields of a server specification that the manager reads for
    control decisions, and some of those that it only formats into the
    generated property files. *)
Record MinecraftServerConfig := {
  Name : string;
  Port : Z;
  Version : string;
  WorldName : string;
  Gamemode : string;
  Difficulty : string;
  MaxPlayers : Z
}.

(** Go's zero value of the struct. *)
Definition zero : MinecraftServerConfig :=
  {| Name := ""; Port := 0; Version := ""; WorldName := "";
     Gamemode := ""; Difficulty := ""; MaxPlayers := 0 |}.

Record RepoConfig := {
  Servers : list MinecraftServerConfig
}.

End config.

(** ** Package [server]: data *)

(** Identity of an [*exec.Cmd]: one per [exec.Command] call. *)
Definition Cmd : Type := nat.

(** Address of a [config.MinecraftServerConfig] variable. *)
Definition loc : Type := nat.

Record MinecraftServer := {
  Config : loc;
  Process : option Cmd;
  Status : string;
  Port : Z;
  MaxLogs : Z
}.

Record Manager := {
  mconfig : config.Config;
  servers : gmap string MinecraftServer;
  lastConfig : option config.RepoConfig;
  lastCommitSHA : string;
  bedrockPath : string
}.

Record ServerStatus := {
  ss_Name : string;
  ss_Status : string;
  ss_Port : Z
}.

Record ManagerStatus := {
  TotalServers : Z;
  Running : Z;
  Stopped : Z;
  Servers : list ServerStatus;
  ms_BedrockPath : string
}.

(** What the manager does to the outside world, in program order. *)
Inductive Action : Type :=
| AGetConfig                                    (* githubClient.GetConfig() *)
| AReclaim (port : Z)                           (* killProcessesOnPort(port) *)
| AStart (name : string) (cmd : Cmd) (port : Z) (* cmd.Start() returned nil *)
| AStop (name : string) (killed : option Cmd)   (* stopServer removed an entry *)
| ACapHit (name : string).                      (* "Maximum number of servers reached" *)

(** The part of the world a tick acts on. *)
Record World := {
  trace : list Action;
  cells : list config.MinecraftServerConfig;
  spawns : nat
}.

Definition State : Type := Manager * World.

(** Where [startServer] stops: each error return of the function, or the
    launch of the process. *)
Inductive StartOutcome : Type :=
| MkdirFails
| BedrockMissing
| PropertiesFail
| CopyFails
| PermissionsFail
| WhitelistFails
| ExecFails
| Launched.

Definition NewManager (cfg : config.Config) : Manager :=
  {| mconfig := cfg; servers := ∅; lastConfig := None;
     lastCommitSHA := ""; bedrockPath := "" |}.

Definition world0 : World := {| trace := []; cells := []; spawns := 0 |}.

Definition set_servers (f : gmap string MinecraftServer → gmap string MinecraftServer)
    (m : Manager) : Manager :=
  {| mconfig := mconfig m; servers := f (servers m); lastConfig := lastConfig m;
     lastCommitSHA := lastCommitSHA m; bedrockPath := bedrockPath m |}.

Definition set_lastCommitSHA (sha : string) (m : Manager) : Manager :=
  {| mconfig := mconfig m; servers := servers m; lastConfig := lastConfig m;
     lastCommitSHA := sha; bedrockPath := bedrockPath m |}.

Definition set_lastConfig (rc : config.RepoConfig) (m : Manager) : Manager :=
  {| mconfig := mconfig m; servers := servers m; lastConfig := Some rc;
     lastCommitSHA := lastCommitSHA m; bedrockPath := bedrockPath m |}.

Definition set_bedrockPath (p : string) (m : Manager) : Manager :=
  {| mconfig := mconfig m; servers := servers m; lastConfig := lastConfig m;
     lastCommitSHA := lastCommitSHA m; bedrockPath := p |}.

Definition set_status (st : string) (s : MinecraftServer) : MinecraftServer :=
  {| Config := Config s; Process := Process s; Status := st;
     Port := Port s; MaxLogs := MaxLogs s |}.

Definition emit (acts : list Action) (w : World) : World :=
  {| trace := trace w ++ acts; cells := cells w; spawns := spawns w |}.

(** [*p] for a configuration pointer. *)
Definition deref (w : World) (p : loc) : config.MinecraftServerConfig :=
  default config.zero (cells w !! p).

(** A new variable, holding the zero value. *)
Definition alloc_cell (w : World) : loc * World :=
  (length (cells w),
   {| trace := trace w; cells := cells w ++ [config.zero]; spawns := spawns w |}).

Definition store_cell (p : loc) (c : config.MinecraftServerConfig) (w : World) : World :=
  {| trace := trace w; cells := <[p := c]> (cells w); spawns := spawns w |}.

Definition next_spawn (w : World) : World :=
  {| trace := trace w; cells := cells w; spawns := S (spawns w) |}.

(** ** Package [server]: the supervisor and the reconciler *)
Section Reconciler.

(** The outcome of the [n]-th call of [startServer], decided by the
    file system and by [exec]. *)
Variable launch : nat → StartOutcome.

Definition serverConfigChanged (old new : config.MinecraftServerConfig) : bool :=
  negb (config.Port old =? config.Port new)
  || negb (String.eqb (config.Version old) (config.Version new))
  || negb (String.eqb (config.WorldName old) (config.WorldName new)).

Definition startServer (serverConfig : loc) (s : State) : State :=
  let '(m, w) := s in
  let c := deref w serverConfig in
  let n := spawns w in
  let w := next_spawn w in
  match launch n with
  | MkdirFails => (m, w)
  | o =>
      let actualPort := int_sub (int_add 20000 (config.Port c)) 19132 in
      let w := emit [AReclaim actualPort; AReclaim 19133] w in
      match o with
      | Launched =>
          let server :=
            {| Config := serverConfig; Process := Some n; Status := "starting";
               Port := config.Port c; MaxLogs := 100 |} in
          (set_servers (insert (config.Name c) server) m,
           emit [AStart (config.Name c) n (config.Port c)] w)
      | _ => (m, w)
      end
  end.

Definition stopServer (name : string) (s : State) : State :=
  let '(m, w) := s in
  match servers m !! name with
  | None => s
  | Some server =>
      (set_servers (delete name) m, emit [AStop name (Process server)] w)
  end.

(** The waiter goroutine, from the point where [cmd.Wait()] has returned
    [err] and the lock is held. *)
Definition monitorServer (name : string) (cmd : Cmd) (err : option error)
    (m : Manager) : Manager :=
  match servers m !! name with
  | Some server =>
      let status := match err with Some _ => "crashed" | None => "stopped" end in
      set_servers (insert name (set_status status server)) m
  | None => m
  end.

Definition stopAllServers (s : State) : State :=
  foldl (λ s name, stopServer name s) s (map_to_list (servers s.1)).*1.

(** One iteration of the second loop of [updateServers]; [p] is the
    address of the range variable. *)
Definition reconcileOne (p : loc) (s : State)
    (serverConfig : config.MinecraftServerConfig) : State :=
  let '(m, w) := s in
  let w := store_cell p serverConfig w in
  if config.MaxInstances (config.Server (mconfig m)) <=? Z.of_nat (size (servers m)) then
    (m, emit [ACapHit (config.Name serverConfig)] w)
  else
    match servers m !! config.Name serverConfig with
    | Some existingServer =>
        if serverConfigChanged (deref w (Config existingServer)) (deref w p) then
          startServer p (stopServer (config.Name serverConfig) (m, w))
        else (m, w)
    | None => startServer p (m, w)
    end.

(** The first loop ranges over the map; Go leaves the order unspecified,
    the model takes the order of [map_to_list]. Only the key under the
    cursor is deleted, so every key present at entry is visited once. *)
Definition updateServers (repoConfig : config.RepoConfig) (s : State) : State :=
  let s :=
    foldl (λ s name,
             if bool_decide (name ∈ config.Name <$> config.Servers repoConfig)
             then s else stopServer name s)
          s (map_to_list (servers s.1)).*1 in
  let '(p, w) := alloc_cell s.2 in
  foldl (reconcileOne p) (s.1, w) (config.Servers repoConfig).

(** [tick]: the fetch results are what [GetLastCommitSHA] returns and what
    [GetConfig] returns if it is called. *)
Definition pollConfiguration (shaResult : result string)
    (configResult : result config.RepoConfig) (s : State) : outcome State :=
  let '(m, w) := s in
  match shaResult with
  | Err _ => Returns s
  | Ok commitSHA =>
      if config.FirstRun (config.Server (mconfig m)) && String.eqb (lastCommitSHA m) "" then
        let m := set_lastCommitSHA commitSHA m in
        let w := emit [AGetConfig] w in
        match configResult with
        | Err _ => Returns (m, w)
        | Ok repoConfig =>
            let '(m, w) := updateServers repoConfig (m, w) in
            Returns (set_lastConfig repoConfig m, w)
        end
      else if String.eqb commitSHA (lastCommitSHA m) then Returns s
      else if (String.length commitSHA <? 8)%nat then
        (* commitSHA[:8] *)
        Panics "slice bounds out of range"
      else
        let w := emit [AGetConfig] w in
        match configResult with
        | Err _ => Returns (m, w)
        | Ok repoConfig =>
            let '(m, w) := updateServers repoConfig (m, w) in
            Returns (set_lastCommitSHA commitSHA (set_lastConfig repoConfig m), w)
        end
  end.

Definition GetStatus (m : Manager) : ManagerStatus :=
  foldl (λ status '(name, server),
           let serverStatus :=
             {| ss_Name := name; ss_Status := Status server; ss_Port := Port server |} in
           {| TotalServers := TotalServers status;
              Running := if String.eqb (Status server) "running"
                         then int_add (Running status) 1 else Running status;
              Stopped := if String.eqb (Status server) "running"
                         then Stopped status else int_add (Stopped status) 1;
              Servers := Servers status ++ [serverStatus];
              ms_BedrockPath := ms_BedrockPath status |})
        {| TotalServers := Z.of_nat (size (servers m)); Running := 0; Stopped := 0;
           Servers := []; ms_BedrockPath := bedrockPath m |}
        (map_to_list (servers m)).

End Reconciler.

(** ** Package [server]: the archive assembler *)

(** The regular files on disk, by path: the paths are clean and relative
    to the working directory, as the package writes them. A missing file is
    the only I/O error of the model: creating, writing and removing
    succeed. *)
Abbreviation FS := (gmap string (list byte)).

Definition bedrockArchive : string := "versions/bedrock-server.zip".
Definition recombinedFile : string := "versions/bedrock-server-recombined.zip".
Definition extractDir : string := "bedrock-server-extracted".

(** Whether a path is the directory itself or lies below it. *)
Definition under (dir p : string) : bool :=
  String.eqb p dir || String.prefix (dir +:+ "/") p.

(** [os.RemoveAll(dir)] *)
Definition os_RemoveAll (dir : string) (fs : FS) : FS :=
  filter (λ entry, under dir entry.1 = false) fs.

(** The files [written], given by their paths relative to [dir], put
    below [dir] in place of what was there. *)
Definition replace_below (dir : string) (written : FS) (fs : FS) : FS :=
  kmap (String.app (dir +:+ "/")) written ∪ os_RemoveAll dir fs.

(** [fmt.Sprintf("versions/bedrock-server.layer.%d", i)] *)
Definition layerFile (i : nat) : string :=
  "versions/bedrock-server.layer." +:+ pretty i.

(** [io.CopyN(dst, src, n)] on a reader with [src] left to read: what is
    written, what is left, and whether the reader ran dry first ([io.EOF]). *)
Definition io_CopyN (src : list byte) (n : Z) : list byte * list byte * bool :=
  (take (Z.to_nat n) src, drop (Z.to_nat n) src, Z.of_nat (length src) <? n).

(** [strings.ToLower]-free lower-case digits, as [encoding/hex] has them. *)
Definition hextable : list Ascii.ascii := String.list_ascii_of_string "0123456789abcdef".

Definition hex_digit (n : N) : Ascii.ascii :=
  nth (N.to_nat n) hextable "0"%char.

(** [hex.EncodeToString] *)
Fixpoint hex_EncodeToString (src : list byte) : string :=
  match src with
  | [] => ""
  | b :: src =>
      String (hex_digit (N.shiftr (Byte.to_N b) 4))
        (String (hex_digit (N.land (Byte.to_N b) 15)) (hex_EncodeToString src))
  end.

(** The value of a digit of [hextable], as [encoding/hex] reads it back
    ([fromHexChar], lower case). *)
Definition fromHexChar (c : ascii) : N :=
  let n := N_of_ascii c in
  if (n <? 58)%N then (n - 48)%N else (n - 87)%N.

(** [filepath.IsAbs] on Unix. *)
Definition filepath_IsAbs (p : string) : bool :=
  match p with
  | String c _ => Ascii.eqb c "/"%char
  | EmptyString => false
  end.

Section Assembler.

(** [sha256.Sum256], as a function on byte strings. *)
Variable sha256 : list byte → list byte.

(** [filepath.Abs], which depends on the working directory. *)
Variable filepath_Abs : string → result string.

(** What [unzip -o], the [tar -xzf] fallback, the search for the
    executable and [chmod] make of the recombined archive, given the files
    on disk: the files that are below the extraction directory when they
    are done, by path relative to it, and the error that [extractArchive]
    returns for them or [nil]. They touch no file outside the directory. *)
Variable extract_tools : list byte → FS → FS * option error.

(** What other processes do to the files between [splitArchive] and
    [recombineLayers]; the identity when nobody touches them. *)
Variable interfere : FS → FS.

Definition cleanupLayers (fs : FS) : FS :=
  let fs := foldl (λ fs i, delete (layerFile i) fs) fs (seq 0 10) in
  let fs := os_RemoveAll extractDir fs in
  delete recombinedFile fs.

(** One iteration of the loop of [splitArchive]: the reader position is
    the list of bytes still to read. An [io.EOF] from [io.CopyN] is let
    through by the code, and it is the only error of this reader. *)
Definition splitLayer (layerSize remainder : Z) (st : list byte * FS) (i : nat)
    : list byte * FS :=
  let '(file, fs) := st in
  let actualLayerSize :=
    if (i =? 9)%nat then int_add layerSize remainder else layerSize in
  let '(written, file, _) := io_CopyN file actualLayerSize in
  (file, <[layerFile i := written]> fs).

Definition splitArchive (archivePath : string) (fs : FS) : option error * FS :=
  match fs !! archivePath with
  | None => (Some "failed to open archive", fs)
  | Some data =>
      let fileSize := Z.of_nat (length data) in
      let layerSize := Z.quot fileSize 10 in
      let remainder := Z.rem fileSize 10 in
      (None, (foldl (splitLayer layerSize remainder) (data, fs) (seq 0 10)).2)
  end.

Definition calculateFileHash (filePath : string) (fs : FS) : result string :=
  match fs !! filePath with
  | None => Err "no such file or directory"
  | Some data => Ok (hex_EncodeToString (sha256 data))
  end.

Definition verifyIntegrity (fs : FS) : option error :=
  match calculateFileHash bedrockArchive fs with
  | Err _ => Some "failed to calculate original file hash"
  | Ok originalHash =>
      match calculateFileHash recombinedFile fs with
      | Err _ => Some "failed to calculate recombined file hash"
      | Ok recombinedHash =>
          if negb (String.eqb originalHash recombinedHash)
          then Some "integrity check failed: hashes don't match"
          else None
      end
  end.

(** The loop of [recombineLayers]: [output] is what has been written to the
    recombined file so far; the first missing layer ends the loop with an
    error. *)
Fixpoint appendLayers (layers : list nat) (output : list byte) (fs : FS)
    : option error * FS :=
  match layers with
  | [] => (None, fs)
  | i :: layers =>
      match fs !! layerFile i with
      | None => (Some "layer file not found", fs)
      | Some layer =>
          let output := output ++ layer in
          appendLayers layers output (<[recombinedFile := output]> fs)
      end
  end.

Definition recombineLayers (fs : FS) : option error * FS :=
  let fs := <[recombinedFile := []]> fs in
  match appendLayers (seq 0 10) [] fs with
  | (Some e, fs) => (Some e, fs)
  | (None, fs) =>
      match verifyIntegrity fs with
      | Some _ => (Some "integrity check failed", fs)
      | None => (None, fs)
      end
  end.

(** [os.MkdirAll] fails when a regular file is in the way, and adds no
    regular file. Without the recombined archive both tools fail before
    they write. *)
Definition extractArchive (fs : FS) : option error * FS :=
  match fs !! extractDir with
  | Some _ => (Some "failed to create extraction directory", fs)
  | None =>
      match fs !! recombinedFile with
      | None => (Some "failed to extract archive (tried zip and tar.gz)", fs)
      | Some data =>
          let '(written, err) := extract_tools data fs in
          (err, replace_below extractDir written fs)
      end
  end.

Definition initializeBedrockServer (m : Manager) (fs : FS) : option error * Manager * FS :=
  match fs !! bedrockArchive with
  | None =>
      let configured := config.BedrockPath (config.Server (mconfig m)) in
      if negb (filepath_IsAbs configured) then
        match filepath_Abs configured with
        | Err _ => (Some "failed to get absolute path", m, fs)
        | Ok absPath => (None, set_bedrockPath absPath m, fs)
        end
      else (None, set_bedrockPath configured m, fs)
  | Some _ =>
      let fs := cleanupLayers fs in
      match splitArchive bedrockArchive fs with
      | (Some _, fs) => (Some "failed to split archive", m, fs)
      | (None, fs) =>
          match recombineLayers (interfere fs) with
          | (Some _, fs) => (Some "failed to recombine layers", m, fs)
          | (None, fs) =>
              match extractArchive fs with
              | (Some _, fs) => (Some "failed to extract archive", m, fs)
              | (None, fs) =>
                  match filepath_Abs "./bedrock-server-extracted/bedrock_server" with
                  | Err _ => (Some "failed to get absolute path for bedrock server", m, fs)
                  | Ok absPath => (None, set_bedrockPath absPath m, fs)
                  end
              end
          end
      end
  end.

(** The ports of [cleanupPortsOnStartup], in the order of the source. *)
Definition startupPorts : list Z :=
  [19132; 19133; 19134; 19135; 19136;
   20132; 20133; 20134; 20135; 20136;
   19137; 19138; 19139; 19140; 19141;
   20137; 20138; 20139; 20140; 20141].

Definition cleanupPortsOnStartup (w : World) : World :=
  emit (AReclaim <$> startupPorts) w.

(** The fetch results that one call of [pollConfiguration] meets. *)
Record Poll := {
  poll_sha : result string;
  poll_config : result config.RepoConfig
}.

Variable launch : nat → StartOutcome.

(** The [for]/[select] loop of [Start]: one [pollConfiguration] per tick
    that fires before the context is done. *)
Fixpoint pollLoop (ticks : list Poll) (s : State) : outcome State :=
  match ticks with
  | [] => Returns s
  | t :: ticks =>
      match pollConfiguration launch (poll_sha t) (poll_config t) s with
      | Panics msg => Panics msg
      | Returns s => pollLoop ticks s
      end
  end.

(** [time.NewTicker(d)] panics unless [d] is positive; [time.Second] is
    [1e9] nanoseconds of the 64-bit [time.Duration]. *)
Definition time_Second : Z := 1000000000.

Definition NewTicker_panics (d : Z) : bool := d <=? 0.

(** [Start], for a run in which the initial load meets [initial], the
    ticker then fires [length ticks] times, and the context is cancelled. *)
Definition Start (initial : Poll) (ticks : list Poll) (s : State) (fs : FS)
    : outcome (State * FS) :=
  let '(m, w) := s in
  let w := cleanupPortsOnStartup w in
  match initializeBedrockServer m fs with
  | (Some _, m, fs) => Returns ((m, w), fs)
  | (None, m, fs) =>
      if NewTicker_panics
           (int_mul (config.PollInterval (config.GitHub (mconfig m))) time_Second)
      then Panics "non-positive interval for NewTicker"
      else
        match pollLoop (initial :: ticks) (m, w) with
        | Panics msg => Panics msg
        | Returns s => Returns (stopAllServers s, fs)
        end
  end.

End Assembler.

(** ** Package [server]: the port reclaimer *)

(** The signals of package [os] ([os.Interrupt], [os.Kill]); an [os.Signal]
    interface value is [None] when it is the nil interface. *)
Inductive Signal : Type :=
| Interrupt
| Kill.

(** A process of the host, as far as reclamation can tell: its pid, the
    ports it is bound to, whether it is running, and whether it exits
    within the grace period when it is interrupted. A host has its
    processes and its [lsof]: either it runs as documented (exit status 0
    with the pids, exit status 1 when there is none), or every call fails
    with the error [lsof_error] ([exec] cannot find or start the program,
    or it ends with another exit status or on a signal). *)
Record Proc := {
  pid : Z;
  bound : list Z;
  alive : bool;
  exits_on_interrupt : bool
}.

Record Host := {
  procs : list Proc;
  lsof_works : bool;
  lsof_error : error
}.

(** What [killProcessesOnPort] does to the host and writes to the log. *)
Inductive ReclaimEvent : Type :=
| SentInterrupt (pid : Z)
| SentKill (pid : Z)
| LogForceKilled (pid : Z)
| LogGracefullyTerminated (pid : Z)
| LogStillInUse (port : Z).

Definition on_signal (sig : Signal) (p : Proc) : Proc :=
  {| pid := pid p; bound := bound p;
     alive := match sig with
              | Kill => false
              | Interrupt => alive p && negb (exits_on_interrupt p)
              end;
     exits_on_interrupt := exits_on_interrupt p |}.

Definition is_running (target : Z) (h : Host) : bool :=
  existsb (λ p, (pid p =? target) && alive p) (procs h).

Definition deliver (sig : Signal) (target : Z) (h : Host) : Host :=
  {| procs := (λ p, if pid p =? target then on_signal sig p else p) <$> procs h;
     lsof_works := lsof_works h; lsof_error := lsof_error h |}.

(** [Signal] of [os.Process] in the Go standard library on Unix, for a
    process obtained from [os.FindProcess]: the signal must be a
    [syscall.Signal] (the type assertion fails on the nil interface, with
    "os: unsupported signal type", before any system call), and [kill(2)]
    reports a process that is gone. *)
Definition Process_Signal (sig : option Signal) (target : Z) (h : Host)
    : option error * Host :=
  match sig with
  | None => (Some "os: unsupported signal type", h)
  | Some s =>
      if is_running target h then (None, deliver s target h)
      else (Some "os: process already finished", h)
  end.

(** [Kill] of [os.Process] *)
Definition Process_Kill (target : Z) (h : Host) : option error * Host :=
  Process_Signal (Some Kill) target h.

(** [exec.Command("lsof", "-ti", ":port")] run to its end: the pids
    bound to the port, the error "exit status 1" of [exec.ExitError] when
    there is none, and the error of the host when [lsof] does not work. *)
Definition lsof (port : Z) (h : Host) : result (list Z) :=
  if lsof_works h then
    match pid <$> filter (λ p, alive p = true ∧ port ∈ bound p) (procs h) with
    | [] => Err "exit status 1"
    | pids => Ok pids
    end
  else Err (lsof_error h).

(** [strings.Contains] *)
Definition strings_Contains (s substr : string) : bool :=
  bool_decide (is_Some (String.index 0 substr s)).

(** The body of the loop of [killProcessesOnPort] for one pid of the
    [lsof] output. [os.FindProcess] always succeeds on Unix; a failed
    interrupt is only logged; the two seconds of grace are over when the
    liveness is probed. *)
Definition reclaimProcess (st : Host * list ReclaimEvent) (target : Z)
    : Host * list ReclaimEvent :=
  let '(h, log) := st in
  let '(_, h) := Process_Signal (Some Interrupt) target h in
  let log := log ++ [SentInterrupt target] in
  match Process_Signal None target h with
  | (None, h) =>
      match Process_Kill target h with
      | (None, h) => (h, log ++ [SentKill target; LogForceKilled target])
      | (Some _, h) => (h, log ++ [SentKill target])
      end
  | (Some _, h) => (h, log ++ [LogGracefullyTerminated target])
  end.

Definition killProcessesOnPort (port : Z) (h : Host)
    : option error * Host * list ReclaimEvent :=
  match lsof port h with
  | Err e =>
      if strings_Contains e "exit status 1" then (None, h, [])
      else (Some "failed to check processes on port", h, [])
  | Ok pids =>
      if bool_decide (length pids = 0%nat) then (None, h, [])
      else
        let '(h, log) := foldl reclaimProcess (h, []) pids in
        match lsof port h with
        | Ok _ => (None, h, log ++ [LogStillInUse port])
        | Err _ => (None, h, log)
        end
  end.

(** ** Reachable fleet states *)

(** The transitions of the supervisor: a start for some configuration
    (held in a variable of its own), a stop, and the report of an exit by a
    waiter. *)
Inductive lifecycle (launch : nat → StartOutcome) : State → State → Prop :=
| lifecycle_start (c : config.MinecraftServerConfig) (m : Manager) (w : World) :
    lifecycle launch (m, w)
      (startServer launch (alloc_cell w).1 (m, store_cell (alloc_cell w).1 c (alloc_cell w).2))
| lifecycle_stop (name : string) (s : State) :
    lifecycle launch s (stopServer name s)
| lifecycle_exit (name : string) (cmd : Cmd) (err : option error) (m : Manager) (w : World) :
    lifecycle launch (m, w) (monitorServer name cmd err m, w).

Definition reachable (launch : nat → StartOutcome) (cfg : config.Config) (s : State) : Prop :=
  rtc (lifecycle launch) (NewManager cfg, world0) s.

(** The invariant of the fleet map as the data model words it: a handle
    exactly for the entries that are starting or running. *)
Definition handle_iff_active (m : Manager) : Prop :=
  ∀ name server, servers m !! name = Some server →
    is_Some (Process server) ↔ (Status server = "starting" ∨ Status server = "running").

(** The handle of the latest start of [name] in a trace. *)
Definition last_started (name : string) (tr : list Action) : option Cmd :=
  foldl (λ latest a,
           match a with
           | AStart n cmd _ => if String.eqb n name then Some cmd else latest
           | _ => latest
           end)
        None tr.

(** What the code keeps instead: every entry holds a handle, whatever its
    status, and it is the handle that the latest start of its name has
    stored. *)
Definition handle_kept (s : State) : Prop :=
  ∀ name server, servers s.1 !! name = Some server →
    ∃ cmd, Process server = Some cmd ∧ last_started name (trace s.2) = Some cmd.

(** The statuses that the package writes. *)
Definition status_written (m : Manager) : Prop :=
  ∀ name server, servers m !! name = Some server →
    Status server = "starting" ∨ Status server = "stopped" ∨ Status server = "crashed".

Definition is_start (a : Action) : bool :=
  match a with AStart _ _ _ => true | _ => false end.

(** No collision of the hash on one pair of inputs. *)
Definition collision_free (hash : list byte → list byte) (a b : list byte) : Prop :=
  hash a = hash b → a = b.

(** The chunk that [splitArchive] cuts for layer [i] of a payload. *)
Definition chunk_of (data : list byte) (i : nat) : list byte :=
  let k := (length data / 10)%nat in
  if (i =? 9)%nat then drop (9 * k) data else take k (drop (i * k) data).

(** Corruption as the specification words it: some byte of some chunk is
    not the byte at its place in the range that the split cut for that
    chunk. *)
Definition byte_differs (data : list byte) (chunk : nat → list byte) : Prop :=
  ∃ i j b, (i < 10)%nat ∧ chunk i !! j = Some b ∧ chunk_of data i !! j ≠ Some b.

(** ** Sample inputs *)

Definition sample_config (maxInstances : Z) (firstRun : bool) : config.Config :=
  {| config.GitHub :=
       {| config.RepoOwner := "owner"; config.RepoName := "servers";
          config.Branch := "main"; config.ConfigPath := "servers.yaml";
          config.PollInterval := 60 |};
     config.Server :=
       {| config.BaseDir := "./servers"; config.MaxInstances := maxInstances;
          config.BedrockPath := "./bedrock_server"; config.MemoryLimit := "1G";
          config.FirstRun := firstRun |} |}.

Definition sample_spec (name : string) (port : Z) : config.MinecraftServerConfig :=
  {| config.Name := name; config.Port := port; config.Version := "1.20.0";
     config.WorldName := "world"; config.Gamemode := "survival";
     config.Difficulty := "normal"; config.MaxPlayers := 10 |}.

Definition always_launched : nat → StartOutcome := λ _, Launched.

(** A fleet of one: [A] on port 19132, as a first tick leaves it. *)
Definition fleet_A (maxInstances : Z) : State :=
  match pollConfiguration always_launched (Ok "1111111111111111")
          (Ok {| config.Servers := [sample_spec "A" 19132] |})
          (NewManager (sample_config maxInstances false), world0) with
  | Returns s => s
  | Panics _ => (NewManager (sample_config maxInstances false), world0)
  end.

(** The fleet after [A] was started and its process has exited cleanly. *)
Definition started_A : State :=
  startServer always_launched (alloc_cell world0).1
    (NewManager (sample_config 5 false),
     store_cell (alloc_cell world0).1 (sample_spec "A" 19132) (alloc_cell world0).2).

Definition exited_A : State :=
  (monitorServer "A" 0%nat None started_A.1, started_A.2).

(** A host where pid 4242 holds port 20000 and ignores interrupts. *)
Definition stubborn_host : Host :=
  {| procs := [ {| pid := 4242; bound := [20000]; alive := true;
                   exits_on_interrupt := false |} ];
     lsof_works := true; lsof_error := "" |}.

(** A host where pid 4242 holds port 20000 and exits when interrupted. *)
Definition polite_host : Host :=
  {| procs := [ {| pid := 4242; bound := [20000]; alive := true;
                   exits_on_interrupt := true |} ];
     lsof_works := true; lsof_error := "" |}.

(** A stand-in for the hash in examples: the bytes themselves. *)
Definition toy_hash (data : list byte) : list byte := data.

Definition toy_Abs (p : string) : result string := Ok ("/srv/" +:+ p).

(** An extraction that leaves the executable at the top of the
    directory. *)
Definition toy_extract (data : list byte) (fs : FS) : FS * option error :=
  ({[ "bedrock_server" := data ]}, None).

(** A payload of 25 bytes, 0x00 .. 0x18. *)
Definition payload25 : list byte :=
  [x00; x01; x02; x03; x04; x05; x06; x07; x08; x09; x0a; x0b; x0c;
   x0d; x0e; x0f; x10; x11; x12; x13; x14; x15; x16; x17; x18]%byte.

(** Overwrites the first byte of layer 3 with 0xff. *)
Definition flip_layer3 (fs : FS) : FS :=
  match fs !! layerFile 3 with
  | Some (_ :: rest) => <[layerFile 3 := xff%byte :: rest]> fs
  | _ => fs
  end.

(** A disk with a 25-byte archive, and the layer files that
    [recombineLayers] finds when layer 3 was overwritten after the split. *)
Definition sample_fs : FS := {[ bedrockArchive := payload25 ]}.

Definition sample_disk : FS :=
  flip_layer3 (splitArchive bedrockArchive (cleanupLayers sample_fs)).2.

Definition sample_chunk (i : nat) : list byte :=
  default [] (sample_disk !! layerFile i).

(** Moves the first byte of layer 1 to the end of layer 0. *)
Definition shift_layers (fs : FS) : FS :=
  match fs !! layerFile 0, fs !! layerFile 1 with
  | Some layer0, Some (b :: layer1) =>
      <[layerFile 1 := layer1]> (<[layerFile 0 := layer0 ++ [b]]> fs)
  | _, _ => fs
  end.

(** The layer files that [recombineLayers] finds when the boundary between
    layers 0 and 1 was moved after the split. *)
Definition shifted_disk : FS :=
  shift_layers (splitArchive bedrockArchive (cleanupLayers sample_fs)).2.

Definition shifted_chunk (i : nat) : list byte :=
  default [] (shifted_disk !! layerFile i).

Definition sample_poll : Poll :=
  {| poll_sha := Ok "1111111111111111";
     poll_config := Ok {| config.Servers := [sample_spec "A" 19132] |} |}.

(** ** Package [server]: the search for the executable *)

#[local] Set Warnings "-register-all".

(** What [Lstat] tells of an entry that is not a directory: [Walk] does
    not follow symbolic links, so a link is such an entry whatever it
    points to. *)
Inductive FileKind : Type :=
| Regular
| Symlink
| Special.

(** A directory tree as [filepath.Walk] sees it: an entry that is not a
    directory; a directory with its entries by name, in the lexical order
    in which [readDirNames] returns them; a directory whose entries cannot
    be read; an entry for which [Lstat] fails. *)
Inductive Tree : Type :=
| Leaf (kind : FileKind)
| Dir (entries : list (string * Tree))
| Unreadable (e : error)
| Missing (e : error).

Definition is_dir (t : Tree) : bool :=
  match t with
  | Dir _ | Unreadable _ => true
  | Leaf _ | Missing _ => false
  end.

(** What a [filepath.WalkFunc] returns: [nil], the sentinels
    [filepath.SkipDir] and [filepath.SkipAll], or another error. *)
Inductive WalkErr : Type :=
| WNil
| WSkipDir
| WSkipAll
| WError (e : error).

(** An [os.FileInfo], as far as the package reads it: [Name()] and
    [IsDir()]; [None] is the nil interface. *)
Definition FileInfo : Type := option (string * bool).

(** A [filepath.WalkFunc] that threads the variables it has captured. *)
Definition WalkFunc (St : Type) : Type :=
  string → FileInfo → option error → St → St * WalkErr.

Section Search.

(** [filepath.Join] *)
Variable filepath_Join : string → string → string.

(** The unexported [walk] of [path/filepath], for the entry [t] at [path]
    whose [FileInfo] has the name [name]. The case of [Missing] is the
    call of the function that the callers of [walk] make themselves when
    [Lstat] has failed. *)
Fixpoint walk {St : Type} (fn : WalkFunc St) (path name : string) (t : Tree) (st : St)
    : St * WalkErr :=
  match t with
  | Missing e => fn path None (Some e) st
  | Leaf _ => fn path (Some (name, false)) None st
  | Unreadable e => fn path (Some (name, true)) (Some e) st
  | Dir entries =>
      match fn path (Some (name, true)) None st with
      | (st, WNil) =>
          (fix loop (entries : list (string * Tree)) (st : St) : St * WalkErr :=
             match entries with
             | [] => (st, WNil)
             | (n, t') :: entries =>
                 let filename := filepath_Join path n in
                 match t' with
                 | Missing _ =>
                     match walk fn filename n t' st with
                     | (st, WNil) | (st, WSkipDir) => loop entries st
                     | r => r
                     end
                 | _ =>
                     match walk fn filename n t' st with
                     | (st, WNil) => loop entries st
                     | (st, WSkipDir) =>
                         if is_dir t' then loop entries st else (st, WSkipDir)
                     | r => r
                     end
                 end
             end) entries st
      | r => r
      end
  end.

(** [filepath.Walk]: the sentinels are not errors of the walk. *)
Definition filepath_Walk {St : Type} (fn : WalkFunc St)
    (root rootName : string) (t : Tree) (st : St) : St * option error :=
  match walk fn root rootName t st with
  | (st, WError e) => (st, Some e)
  | (st, _) => (st, None)
  end.

(** [findBedrockExecutable(dir)], for the tree [t] at [dir], whose
    [FileInfo] has the name [dirName]. The closure captures [found]; it
    is never called with neither an error nor a [FileInfo]. *)
Definition findBedrockExecutable (dir dirName : string) (t : Tree) : result string :=
  let fn := λ (path : string) (info : FileInfo) (err : option error) (found : string),
    match err, info with
    | Some e, _ => (found, WError e)
    | None, Some (name, isDir) =>
        if negb isDir && String.eqb name "bedrock_server"
        then (path, WSkipAll)
        else (found, WNil)
    | None, None => (found, WNil)
    end in
  match filepath_Walk fn dir dirName t "" with
  | (_, Some e) => Err e
  | (found, None) =>
      if String.eqb found ""
      then Err "bedrock_server executable not found in extracted directory"
      else Ok found
  end.

(** What ends the search: an entry named [bedrock_server] that is not a
    directory, or an entry that cannot be read. *)
Inductive Hit : Type :=
| Found (path : string)
| Failed (e : error).

(** The hits under a tree, in the order of the walk. *)
Fixpoint hits (path name : string) (t : Tree) : list Hit :=
  match t with
  | Leaf _ => if String.eqb name "bedrock_server" then [Found path] else []
  | Unreadable e | Missing e => [Failed e]
  | Dir entries =>
      (fix each (entries : list (string * Tree)) : list Hit :=
         match entries with
         | [] => []
         | (n, t') :: entries => hits (filepath_Join path n) n t' ++ each entries
         end) entries
  end.

End Search.

(** ** Package [config]: loading *)

Record HTTPConfig := {
  http_Port : Z
}.

(** The struct [Config] of the package with all three of its sections;
    the manager reads [GitHub] and [Server] only. *)
Record FullConfig := {
  full_GitHub : config.GitHubConfig;
  full_HTTP : HTTPConfig;
  full_Server : config.ServerConfig
}.

(** What [os.ReadFile] returns: the data, an error for which
    [os.IsNotExist] holds, or another error. *)
Inductive ReadResult : Type :=
| ReadOk (data : string)
| ReadNotExist
| ReadFails (e : error).

Section Load.

Variable os_Getenv : string → string.
Variable os_ReadFile : string → ReadResult.
(** [yaml.Unmarshal] into a zero [Config]. *)
Variable yaml_Unmarshal : string → result FullConfig.
Variable strings_TrimSpace : string → string.

Definition readBranchFile : result string :=
  match os_ReadFile "branch" with
  | ReadNotExist => Ok ""
  | ReadFails _ => Err "failed to read branch file"
  | ReadOk data => Ok (strings_TrimSpace data)
  end.

Definition with_default_string (value fallback : string) : string :=
  if String.eqb value "" then fallback else value.

Definition with_default_int (value fallback : Z) : Z :=
  if value =? 0 then fallback else value.

Definition Load : result FullConfig :=
  let configPath := with_default_string (os_Getenv "CONFIG_PATH") "config.yaml" in
  match os_ReadFile configPath with
  | ReadNotExist | ReadFails _ => Err "failed to read config file"
  | ReadOk data =>
      match yaml_Unmarshal data with
      | Err _ => Err "failed to parse config file"
      | Ok cfg =>
          match readBranchFile with
          | Err _ => Err "failed to read branch file"
          | Ok branchFromFile =>
              let github := full_GitHub cfg in
              let server := full_Server cfg in
              Ok {| full_GitHub :=
                      {| config.RepoOwner := config.RepoOwner github;
                         config.RepoName := config.RepoName github;
                         config.Branch :=
                           if negb (String.eqb branchFromFile "") then branchFromFile
                           else with_default_string (config.Branch github) "main";
                         config.ConfigPath :=
                           with_default_string (config.ConfigPath github) "servers.yaml";
                         config.PollInterval :=
                           with_default_int (config.PollInterval github) 60 |};
                    full_HTTP :=
                      {| http_Port := with_default_int (http_Port (full_HTTP cfg)) 8080 |};
                    full_Server :=
                      {| config.BaseDir :=
                           with_default_string (config.BaseDir server) "./servers";
                         config.MaxInstances :=
                           with_default_int (config.MaxInstances server) 5;
                         config.BedrockPath :=
                           with_default_string (config.BedrockPath server) "./bedrock_server";
                         config.MemoryLimit :=
                           with_default_string (config.MemoryLimit server) "1G";
                         config.FirstRun := config.FirstRun server |} |}
          end
      end
  end.

End Load.

(** ** Auxiliary notions for the statements *)

(** The fields of the manager that only [pollConfiguration] and
    [initializeBedrockServer] write. *)
Definition same_settings (m m' : Manager) : Prop :=
  mconfig m' = mconfig m ∧ lastConfig m' = lastConfig m
  ∧ lastCommitSHA m' = lastCommitSHA m ∧ bedrockPath m' = bedrockPath m.

(** Every handle of the fleet map was spawned, and two names never hold
    the same handle. *)
Definition handles_distinct (s : State) : Prop :=
  (∀ name server n, servers s.1 !! name = Some server → Process server = Some n →
     (n < spawns s.2)%nat)
  ∧ (∀ name1 name2 server1 server2 n,
       servers s.1 !! name1 = Some server1 → servers s.1 !! name2 = Some server2 →
       Process server1 = Some n → Process server2 = Some n → name1 = name2).

(** Whether an action starts or stops the instance of a name. *)
Definition touches (name : string) (a : Action) : bool :=
  match a with
  | AStart n _ _ | AStop n _ => String.eqb n name
  | _ => false
  end.

(** The host after every process whose pid is in [pids] has been sent
    an interrupt. *)
Definition interrupted (pids : list Z) (h : Host) : Host :=
  {| procs := (λ p, if bool_decide (pid p ∈ pids) then on_signal Interrupt p else p)
                <$> procs h;
     lsof_works := lsof_works h; lsof_error := lsof_error h |}.

(** The pids that [lsof] lists for a port, none when it lists nothing or
    does not run. *)
Definition occupants (port : Z) (h : Host) : list Z :=
  match lsof port h with Ok pids => pids | Err _ => [] end.

(** ** Further sample inputs *)

(** The first launch succeeds, every later one fails at [exec]. *)
Definition first_launch_only : nat → StartOutcome :=
  λ n, match n with O => Launched | S _ => ExecFails end.

Definition three_specs : config.RepoConfig :=
  {| config.Servers :=
       [sample_spec "A" 19132; sample_spec "B" 19133; sample_spec "C" 19134] |}.

(** A desired state that adds [B] and moves [A] to another port. *)
Definition restart_A : config.RepoConfig :=
  {| config.Servers := [sample_spec "B" 19140; sample_spec "A" 19133] |}.

(** The entry of [A] in [fleet_A]. *)
Definition entry_A : MinecraftServer :=
  {| Config := 0%nat; Process := Some 0%nat; Status := "starting";
     Port := 19132; MaxLogs := 100 |}.

(** What a run on the sample disk returns when nobody touches the layer
    files: the initial load starts [A], one more tick fires, and the
    context is cancelled. *)
Definition sample_run : State * FS :=
  match Start toy_hash toy_Abs toy_extract (λ fs, fs) always_launched sample_poll
          [sample_poll] (NewManager (sample_config 5 false), world0) sample_fs with
  | Returns r => r
  | Panics _ => ((NewManager (sample_config 5 false), world0), sample_fs)
  end.

(** A process environment with no [CONFIG_PATH], a [config.yaml] that
    sets nothing, and no branch file. *)
Definition sample_Getenv (name : string) : string := "".

Definition sample_ReadFile (path : string) : ReadResult :=
  if String.eqb path "config.yaml" then ReadOk "github: {}" else ReadNotExist.

Definition empty_FullConfig : FullConfig :=
  {| full_GitHub :=
       {| config.RepoOwner := ""; config.RepoName := ""; config.Branch := "";
          config.ConfigPath := ""; config.PollInterval := 0 |};
     full_HTTP := {| http_Port := 0 |};
     full_Server :=
       {| config.BaseDir := ""; config.MaxInstances := 0; config.BedrockPath := "";
          config.MemoryLimit := ""; config.FirstRun := false |} |}.

Definition sample_Unmarshal (data : string) : result FullConfig := Ok empty_FullConfig.

(** A [config.yaml] that sets everything. *)
Definition explicit_FullConfig : FullConfig :=
  {| full_GitHub := config.GitHub (sample_config 3 false);
     full_HTTP := {| http_Port := 9090 |};
     full_Server := config.Server (sample_config 3 false) |}.

Definition explicit_Unmarshal (data : string) : result FullConfig := Ok explicit_FullConfig.

Definition sample_TrimSpace (s : string) : string := s.

(** * Properties *)

(** ** The reconciler tick *)
Section TickProperties.

Variable launch : nat → StartOutcome.

Lemma first_run_branch_off (m : Manager) :
  lastCommitSHA m ≠ "" →
  config.FirstRun (config.Server (mconfig m)) && String.eqb (lastCommitSHA m) "" = false.
Proof.
  intros Hstored. apply andb_false_iff. right. by apply String.eqb_neq.
Qed.

(** C1. Once a fingerprint is stored, a tick whose fetched fingerprint is
    the stored one returns the state it was given: nothing is appended to
    the trace (no start, no stop, not even a fetch of the document), and
    the fleet map, [lastConfig] and [lastCommitSHA] are the same. The
    result of the document fetch is irrelevant: it is not requested. *)
Theorem tick_unchanged_fingerprint_noop (m : Manager) (w : World)
    (configResult : result config.RepoConfig) :
  lastCommitSHA m ≠ "" →
  pollConfiguration launch (Ok (lastCommitSHA m)) configResult (m, w) = Returns (m, w).
Proof.
  intros Hstored. unfold pollConfiguration.
  rewrite (first_run_branch_off m Hstored).
  by rewrite String.eqb_refl.
Qed.

(** C9. Outside the first-run branch, with a fetched fingerprint that
    differs from the stored one, the tick reaches [commitSHA[:8]]: it
    panics when the fingerprint is shorter than 8 bytes, whatever the
    document fetch would return, and returns when it has 8 bytes or more. *)
Theorem tick_panics_on_short_fingerprint (m : Manager) (w : World) (commitSHA : string)
    (configResult : result config.RepoConfig) :
  config.FirstRun (config.Server (mconfig m)) && String.eqb (lastCommitSHA m) "" = false →
  commitSHA ≠ lastCommitSHA m →
  ((String.length commitSHA < 8)%nat →
     pollConfiguration launch (Ok commitSHA) configResult (m, w)
     = Panics "slice bounds out of range")
  ∧ ((8 ≤ String.length commitSHA)%nat →
     ∃ s, pollConfiguration launch (Ok commitSHA) configResult (m, w) = Returns s).
Proof.
  intros Hbranch Hchanged. unfold pollConfiguration. rewrite Hbranch.
  apply String.eqb_neq in Hchanged. rewrite Hchanged. split; intros Hlen.
  - apply Nat.ltb_lt in Hlen. by rewrite Hlen.
  - apply Nat.ltb_ge in Hlen. rewrite Hlen.
    destruct configResult as [repoConfig | e]; [| by eexists].
    destruct (updateServers launch repoConfig _) as [m' w']. by eexists.
Qed.

(** X22. What holds of a failed fetch in every mode: the fleet map is the one
    the tick was given, and nothing is started or stopped. *)
Lemma fetch_failure_fleet_untouched (m : Manager) (w : World)
    (shaResult : result string) (e : error) (s : State) :
  pollConfiguration launch shaResult (Err e) (m, w) = Returns s →
  servers s.1 = servers m ∧ lastConfig s.1 = lastConfig m
  ∧ (trace s.2 = trace w ∨ trace s.2 = trace w ++ [AGetConfig]).
Proof.
  unfold pollConfiguration. intros Hpoll.
  destruct shaResult as [commitSHA | e']; [| by simplify_eq; auto].
  repeat case_match; simplify_eq; simpl; auto.
Qed.

(** X23. Outside the first-run branch a failed fetch leaves the stored
    fingerprint alone. *)
Lemma fetch_failure_fingerprint_kept (m : Manager) (w : World)
    (shaResult : result string) (e : error) (s : State) :
  config.FirstRun (config.Server (mconfig m)) && String.eqb (lastCommitSHA m) "" = false →
  pollConfiguration launch shaResult (Err e) (m, w) = Returns s →
  lastCommitSHA s.1 = lastCommitSHA m.
Proof.
  unfold pollConfiguration. intros Hbranch Hpoll. rewrite Hbranch in Hpoll.
  destruct shaResult as [commitSHA | e']; [| by simplify_eq].
  repeat case_match; by simplify_eq.
Qed.

End TickProperties.

Lemma tick_unchanged_fingerprint_noop_witness :
  lastCommitSHA (fleet_A 5).1 ≠ ""
  ∧ pollConfiguration always_launched (Ok (lastCommitSHA (fleet_A 5).1))
      (Ok {| config.Servers := [sample_spec "B" 19140] |})
      ((fleet_A 5).1, (fleet_A 5).2)
    = Returns ((fleet_A 5).1, (fleet_A 5).2).
Proof.
  split.
  - vm_compute. discriminate.
  - apply (tick_unchanged_fingerprint_noop always_launched).
    vm_compute. discriminate.
Defined.

Lemma tick_panics_on_short_fingerprint_witness :
  pollConfiguration always_launched (Ok "abc1234")
    (Ok {| config.Servers := [sample_spec "A" 19132] |}) (fleet_A 5)
  = Panics "slice bounds out of range".
Proof.
  refine (proj1 (tick_panics_on_short_fingerprint always_launched
                   (fleet_A 5).1 (fleet_A 5).2 "abc1234" _ _ _) _).
  - reflexivity.
  - vm_compute. discriminate.
  - vm_compute. lia.
Defined.

(** C4. In first-run mode the fingerprint is stored before the document
    is fetched. On the first cycle, with the fingerprint fetched and the
    document fetch failing, the tick leaves the fleet map alone but
    returns with the new fingerprint stored; the next tick, meeting the
    same fingerprint, returns at once without requesting the document,
    although it would now be served. *)
Theorem first_run_fetch_failure_stores_fingerprint :
  let s0 : State := (NewManager (sample_config 5 true), world0) in
  let s1 : State :=
    (set_lastCommitSHA "1111111111111111" (NewManager (sample_config 5 true)),
     emit [AGetConfig] world0) in
  pollConfiguration always_launched (Ok "1111111111111111") (Err "timeout") s0
    = Returns s1
  ∧ servers s1.1 = servers s0.1
  ∧ lastCommitSHA s0.1 = ""
  ∧ lastCommitSHA s1.1 = "1111111111111111"
  ∧ pollConfiguration always_launched (Ok "1111111111111111")
      (Ok {| config.Servers := [sample_spec "A" 19132] |}) s1
    = Returns s1.
Proof. repeat split. Qed.

(** C5. With a maximum of one instance and [A] tracked on port 19132, a
    desired state that moves [A] to port 19133 is a change by
    [serverConfigChanged], and admitting it would not add an entry; still
    [updateServers] stops at the cap test: [A] is reported as skipped,
    nothing is stopped or started, and the entry keeps the old port. *)
Theorem cap_blocks_restart_of_changed_spec :
  let s := fleet_A 1 in
  let desired := {| config.Servers := [sample_spec "A" 19133] |} in
  (∃ server, servers s.1 !! "A" = Some server
     ∧ size (servers s.1) = 1%nat
     ∧ serverConfigChanged (deref s.2 (Config server)) (sample_spec "A" 19133) = true)
  ∧ servers (updateServers always_launched desired s).1 = servers s.1
  ∧ trace (updateServers always_launched desired s).2 = trace s.2 ++ [ACapHit "A"]
  ∧ (∃ server, servers (updateServers always_launched desired s).1 !! "A" = Some server
       ∧ Port server = 19132).
Proof.
  repeat split.
  - eexists. repeat split.
  - eexists. repeat split.
Qed.

(** With room under the maximum the same desired state restarts [A]. *)
Lemma changed_spec_restarts_below_cap :
  trace (updateServers always_launched
           {| config.Servers := [sample_spec "A" 19133] |} (fleet_A 2)).2
  = trace (fleet_A 2).2
    ++ [AStop "A" (Some 0%nat); AReclaim 20001; AReclaim 19133; AStart "A" 1%nat 19133].
Proof. reflexivity. Qed.

(** C7. An instance that has just been started has status "starting";
    [GetStatus] counts it as stopped, and the running count is zero. *)
Theorem starting_instance_counted_stopped :
  (∃ server, servers (fleet_A 5).1 !! "A" = Some server ∧ Status server = "starting")
  ∧ TotalServers (GetStatus (fleet_A 5).1) = 1
  ∧ Running (GetStatus (fleet_A 5).1) = 0
  ∧ Stopped (GetStatus (fleet_A 5).1) = 1.
Proof. split; [eexists; split; reflexivity | repeat split]. Qed.

(** ** The port reclaimer *)

(** The liveness probe sends the nil signal, which [Signal] rejects before
    it looks at the process. *)
Lemma nil_signal_probe_blind (target : Z) (h : Host) :
  Process_Signal None target h = (Some "os: unsupported signal type", h).
Proof. reflexivity. Qed.

Lemma reclaimProcess_log (h : Host) (log : list ReclaimEvent) (target : Z) :
  (reclaimProcess (h, log) target).2
  = log ++ [SentInterrupt target; LogGracefullyTerminated target].
Proof.
  unfold reclaimProcess.
  destruct (Process_Signal (Some Interrupt) target h) as [e h'].
  rewrite nil_signal_probe_blind. simpl. by rewrite <- app_assoc.
Qed.

Lemma reclaim_loop_never_kills (pids : list Z) (h : Host) (log : list ReclaimEvent) (p : Z) :
  SentKill p ∉ log →
  SentKill p ∉ (foldl reclaimProcess (h, log) pids).2.
Proof.
  revert h log. induction pids as [| target pids IH]; intros h log Hlog; [done |].
  change (foldl reclaimProcess (h, log) (target :: pids))
    with (foldl reclaimProcess (reclaimProcess (h, log) target) pids).
  destruct (reclaimProcess (h, log) target) as [h' log'] eqn:Hstep.
  apply IH. pose proof (reclaimProcess_log h log target) as Hlog'.
  rewrite Hstep in Hlog'. simpl in Hlog'. subst log'.
  rewrite elem_of_app, !elem_of_cons, elem_of_nil.
  intros [? | [? | [? | []]]]; done.
Qed.

(** X25. No run of [killProcessesOnPort] force-terminates anything. *)
Lemma reclaim_never_kills (port : Z) (h : Host) (p : Z) :
  SentKill p ∉ (killProcessesOnPort port h).2.
Proof.
  unfold killProcessesOnPort.
  destruct (lsof port h) as [pids | e].
  - case_bool_decide; [simpl; apply not_elem_of_nil |].
    pose proof (reclaim_loop_never_kills pids h [] p (not_elem_of_nil _)) as Hloop.
    destruct (foldl reclaimProcess (h, []) pids) as [h' log].
    destruct (lsof port h') as [? | ?]; simpl in *; [| done].
    rewrite elem_of_app, list_elem_of_singleton. intros [? | ?]; done.
  - destruct (strings_Contains e "exit status 1"); simpl; apply not_elem_of_nil.
Qed.

(** C8. On a host where pid 4242 holds port 20000 and does not exit when
    interrupted, [killProcessesOnPort 20000] interrupts it, logs a graceful
    termination, sends no kill, and leaves the host as it was: the process
    is running and the port is in use. The log for a process that did
    exit on the interrupt is the same up to the final warning. *)
Theorem reclaim_does_not_escalate :
  killProcessesOnPort 20000 stubborn_host
    = (None, stubborn_host,
       [SentInterrupt 4242; LogGracefullyTerminated 4242; LogStillInUse 20000])
  ∧ is_running 4242 (killProcessesOnPort 20000 stubborn_host).1.2 = true
  ∧ lsof 20000 (killProcessesOnPort 20000 stubborn_host).1.2 = Ok [4242]
  ∧ (killProcessesOnPort 20000 polite_host).2
    = [SentInterrupt 4242; LogGracefullyTerminated 4242]
  ∧ is_running 4242 (killProcessesOnPort 20000 polite_host).1.2 = false.
Proof. repeat split. Qed.

(** ** The supervisor: handles and statuses *)
Section SupervisorProperties.

Variable launch : nat → StartOutcome.

Lemma startServer_cases (p : loc) (m : Manager) (w : World) :
  (startServer launch p (m, w)).1 = m
  ∨ (launch (spawns w) = Launched
     ∧ (startServer launch p (m, w)).1
       = set_servers
           (insert (config.Name (deref w p))
              {| Config := p; Process := Some (spawns w); Status := "starting";
                 Port := config.Port (deref w p); MaxLogs := 100 |}) m).
Proof.
  unfold startServer. destruct (launch (spawns w)); simpl; auto.
Qed.

Lemma startServer_status_written (p : loc) (m : Manager) (w : World) :
  status_written m → status_written (startServer launch p (m, w)).1.
Proof.
  intros Hinv. destruct (startServer_cases p m w) as [-> | [_ ->]]; [done |].
  intros name server. simpl. rewrite lookup_insert.
  case_decide; [| by apply Hinv].
  intros [= <-]. simpl. by left.
Qed.

Lemma stopServer_status_written (name : string) (s : State) :
  status_written s.1 → status_written (stopServer name s).1.
Proof.
  destruct s as [m w]. unfold stopServer. simpl. intros Hinv.
  destruct (servers m !! name) as [server |]; [| done].
  intros name' server'. simpl. rewrite lookup_delete.
  case_decide; [done | by apply Hinv].
Qed.

Lemma monitorServer_status_written (name : string) (cmd : Cmd) (err : option error)
    (m : Manager) :
  status_written m → status_written (monitorServer name cmd err m).
Proof.
  intros Hinv. unfold monitorServer.
  destruct (servers m !! name) as [server |] eqn:Hlookup; [| done].
  intros name' server'. simpl. rewrite lookup_insert.
  case_decide; [| by apply Hinv].
  intros [= <-]. simpl. destruct err; auto.
Qed.

Lemma lifecycle_status_written (s s' : State) :
  lifecycle launch s s' → status_written s.1 → status_written s'.1.
Proof.
  destruct 1; intros Hinv.
  - by apply startServer_status_written.
  - by apply stopServer_status_written.
  - by apply monitorServer_status_written.
Qed.

(** Invariants of the reachable states. *)
Lemma reachable_invariant (P : State → Prop) (cfg : config.Config) :
  P (NewManager cfg, world0) →
  (∀ s s', lifecycle launch s s' → P s → P s') →
  ∀ s, reachable launch cfg s → P s.
Proof.
  intros Hinit Hstep. unfold reachable. apply (rtc_ind_r P); [done |].
  intros s1 s2 _ Hs IH. by eapply Hstep.
Qed.

Lemma status_written_initially (cfg : config.Config) : status_written (NewManager cfg).
Proof. intros name server. simpl. by rewrite lookup_empty. Qed.

(** A start of one name is the latest start of that name and of no
    other; the other actions of the supervisor start nothing. *)
Lemma last_started_start (name started : string) (tr : list Action) (cmd : Cmd) (port : Z) :
  last_started name (tr ++ [AStart started cmd port])
  = if String.eqb started name then Some cmd else last_started name tr.
Proof. unfold last_started. by rewrite foldl_app. Qed.

Lemma last_started_reclaims (name : string) (tr : list Action) (port1 port2 : Z) :
  last_started name (tr ++ [AReclaim port1; AReclaim port2]) = last_started name tr.
Proof. unfold last_started. by rewrite foldl_app. Qed.

Lemma last_started_stop (name stopped : string) (tr : list Action) (killed : option Cmd) :
  last_started name (tr ++ [AStop stopped killed]) = last_started name tr.
Proof. unfold last_started. by rewrite foldl_app. Qed.

Lemma startServer_handle_kept (p : loc) (m : Manager) (w : World) :
  handle_kept (m, w) → handle_kept (startServer launch p (m, w)).
Proof.
  intros Hinv name server. unfold startServer.
  destruct (launch (spawns w)); cbn [fst snd trace emit next_spawn];
    rewrite ?last_started_start, ?last_started_reclaims; try apply Hinv.
  cbn [servers set_servers]. rewrite lookup_insert.
  destruct (String.eqb_spec (config.Name (deref w p)) name) as [-> | Hne].
  - rewrite decide_True by done. intros [= <-]. by eexists.
  - rewrite decide_False by done. apply Hinv.
Qed.

Lemma stopServer_handle_kept (name : string) (s : State) :
  handle_kept s → handle_kept (stopServer name s).
Proof.
  destruct s as [m w]. unfold stopServer. intros Hinv.
  destruct (servers m !! name) as [server |]; [| done].
  intros name' server'. cbn [fst snd servers set_servers trace emit].
  rewrite lookup_delete, last_started_stop.
  case_decide; [done | apply Hinv].
Qed.

Lemma monitorServer_handle_kept (name : string) (cmd : Cmd) (err : option error)
    (m : Manager) (w : World) :
  handle_kept (m, w) → handle_kept (monitorServer name cmd err m, w).
Proof.
  intros Hinv. unfold monitorServer.
  destruct (servers m !! name) as [server |] eqn:Hlookup; [| done].
  intros name' server'. cbn [fst snd servers set_servers]. rewrite lookup_insert.
  case_decide as Hname; [| apply Hinv].
  subst name'. intros [= <-]. cbn [Process set_status]. by apply Hinv.
Qed.

Lemma lifecycle_handle_kept (s s' : State) :
  lifecycle launch s s' → handle_kept s → handle_kept s'.
Proof.
  destruct 1; intros Hinv.
  - apply startServer_handle_kept. intros name server. apply Hinv.
  - by apply stopServer_handle_kept.
  - by apply monitorServer_handle_kept.
Qed.

(** C6, as the code has it. In every state reached by starts, stops and
    exit reports, every entry of the fleet map holds a process handle,
    whatever its status, and it is the handle that the latest start of its
    name has stored. So an entry that is starting has a handle, and so
    has every other entry: one that a waiter has marked stopped or crashed
    still has the handle it was started with. *)
Theorem fleet_entries_keep_handle (cfg : config.Config) (s : State) :
  reachable launch cfg s → handle_kept s.
Proof.
  apply (reachable_invariant handle_kept).
  - intros name server. simpl. by rewrite lookup_empty.
  - apply lifecycle_handle_kept.
Qed.

End SupervisorProperties.

Lemma exited_A_reachable : reachable always_launched (sample_config 5 false) exited_A.
Proof.
  unfold reachable. eapply rtc_l; [apply lifecycle_start |].
  apply rtc_once.
  exact (lifecycle_exit always_launched "A" 0%nat None started_A.1 started_A.2).
Qed.

(** C6 as stated fails: after a start and a clean exit, the entry of [A]
    has status "stopped" and still holds the handle of its process. *)
Lemma handle_iff_active_counterexample :
  reachable always_launched (sample_config 5 false) exited_A
  ∧ ¬ handle_iff_active exited_A.1.
Proof.
  split; [apply exited_A_reachable |].
  intros Hinv.
  destruct (Hinv "A" {| Config := 0%nat; Process := Some 0%nat; Status := "stopped";
                        Port := 19132; MaxLogs := 100 |} eq_refl) as [Hactive _].
  destruct Hactive as [Hst | Hst]; [by eexists | discriminate Hst | discriminate Hst].
Qed.

Lemma fleet_entries_keep_handle_witness :
  ∃ server,
    servers exited_A.1 !! "A" = Some server
    ∧ Status server = "stopped"
    ∧ Process server = Some 0%nat
    ∧ last_started "A" (trace exited_A.2) = Some 0%nat.
Proof.
  destruct (fleet_entries_keep_handle always_launched (sample_config 5 false) exited_A
              exited_A_reachable "A"
              {| Config := 0%nat; Process := Some 0%nat; Status := "stopped";
                 Port := 19132; MaxLogs := 100 |} eq_refl)
    as (cmd & Hprocess & Hlatest).
  eexists. split; [reflexivity |]. split; [reflexivity |].
  split; [reflexivity |]. rewrite Hlatest, <- Hprocess. reflexivity.
Defined.

(** ** The two loops of a diff *)
Section WaiterProperties.

Variable launch : nat → StartOutcome.

Lemma stopServer_servers (name : string) (s : State) :
  servers (stopServer name s).1 = delete name (servers s.1).
Proof.
  destruct s as [m w]. unfold stopServer. simpl.
  destruct (servers m !! name) eqn:Hlookup; [done |].
  simpl. symmetry. by apply delete_id.
Qed.

Lemma stopServer_world (name : string) (s : State) :
  cells (stopServer name s).2 = cells s.2 ∧ spawns (stopServer name s).2 = spawns s.2.
Proof.
  destruct s as [m w]. unfold stopServer. simpl.
  by destruct (servers m !! name).
Qed.

Lemma stopServer_mconfig (name : string) (s : State) :
  mconfig (stopServer name s).1 = mconfig s.1.
Proof.
  destruct s as [m w]. unfold stopServer. simpl.
  by destruct (servers m !! name).
Qed.

(** The removal loop of [updateServers] keeps the entries whose names are
    desired, adds none, and allocates and spawns nothing. *)
Lemma removal_loop (names keys : list string) (s : State) :
  let s' := foldl (λ s name, if bool_decide (name ∈ names) then s else stopServer name s)
              s keys in
  (∀ name, name ∈ names → servers s'.1 !! name = servers s.1 !! name)
  ∧ (size (servers s'.1) ≤ size (servers s.1))%nat
  ∧ cells s'.2 = cells s.2 ∧ spawns s'.2 = spawns s.2
  ∧ mconfig s'.1 = mconfig s.1.
Proof.
  revert s. induction keys as [| key keys IH]; intros s; [done |].
  cbn [foldl]. case_bool_decide as Hkey; [apply IH |].
  destruct (IH (stopServer key s)) as (Hkept & Hsize & Hcells & Hspawns & Hcfg).
  pose proof (stopServer_world key s) as [Hc Hs].
  cbn zeta. split; [| split; [| split; [| split]]].
  - intros name Hname. rewrite (Hkept name Hname), stopServer_servers.
    apply lookup_delete_ne. by intros ->.
  - etrans; [apply Hsize |]. rewrite stopServer_servers.
    apply map_subseteq_size, delete_subseteq.
  - by rewrite Hcells.
  - by rewrite Hspawns.
  - by rewrite Hcfg, stopServer_mconfig.
Qed.

End WaiterProperties.

(** ** The archive assembler: split and recombine *)

Lemma layerFile_inj (i j : nat) : layerFile i = layerFile j → i = j.
Proof.
  unfold layerFile. intros Heq.
  apply (inj (String.app "versions/bedrock-server.layer.")) in Heq.
  by apply (inj pretty) in Heq.
Qed.

Lemma layerFile_not_recombined (i : nat) : layerFile i ≠ recombinedFile.
Proof. unfold layerFile, recombinedFile. simpl. discriminate. Qed.

Lemma layerFile_not_archive (i : nat) : layerFile i ≠ bedrockArchive.
Proof. unfold layerFile, bedrockArchive. simpl. discriminate. Qed.

Lemma layerFile_not_extracted (i : nat) : under extractDir (layerFile i) = false.
Proof. reflexivity. Qed.

Lemma prefix_app (s rest : string) : String.prefix s (s +:+ rest) = true.
Proof.
  induction s as [| a s IH]; [by destruct rest |].
  simpl. by destruct (ascii_dec a a).
Qed.

Lemma lookup_os_RemoveAll (dir p : string) (fs : FS) :
  os_RemoveAll dir fs !! p = if under dir p then None else fs !! p.
Proof.
  unfold os_RemoveAll. rewrite map_lookup_filter.
  destruct (fs !! p) as [data |]; simpl; [| by destruct (under dir p)].
  destruct (under dir p); by simplify_option_eq.
Qed.

(** Whatever is put below a directory, the paths outside it keep their
    files, and the paths below it get exactly what was written. *)
Lemma lookup_replace_below_outside (dir p : string) (written fs : FS) :
  under dir p = false → replace_below dir written fs !! p = fs !! p.
Proof.
  intros Hout. unfold replace_below.
  rewrite lookup_union_r.
  - by rewrite lookup_os_RemoveAll, Hout.
  - apply lookup_kmap_None; [apply _ |]. intros rel ->.
    unfold under in Hout. rewrite prefix_app in Hout.
    by rewrite orb_true_r in Hout.
Qed.

Lemma lookup_replace_below_inside (dir rel : string) (written fs : FS) :
  replace_below dir written fs !! ((dir +:+ "/") +:+ rel) = written !! rel.
Proof.
  unfold replace_below.
  assert (under dir ((dir +:+ "/") +:+ rel) = true) as Hin.
  { unfold under. rewrite prefix_app. apply orb_true_r. }
  rewrite lookup_union, lookup_os_RemoveAll, Hin.
  rewrite (lookup_kmap (String.app (dir +:+ "/"))).
  by destruct (written !! rel).
Qed.

Lemma take_drop_step {A} (k n : nat) (l : list A) :
  take k (drop n l) ++ drop (n + k) l = drop n l.
Proof. rewrite <- (drop_drop l k n). apply take_drop. Qed.

(** The first [n] chunks of equal size, then the rest, give the list back. *)
Lemma equal_chunks_concat {A} (k n : nat) (l : list A) :
  concat ((λ i, take k (drop (i * k) l)) <$> seq 0 n) ++ drop (n * k) l = l.
Proof.
  induction n as [| n IH]; [by rewrite drop_0 |].
  rewrite seq_S, fmap_app, concat_app. simpl.
  rewrite app_nil_r, <- app_assoc.
  replace (k + n * k)%nat with (n * k + k)%nat by lia.
  by rewrite take_drop_step.
Qed.

Lemma chunks_concat (data : list byte) :
  concat (chunk_of data <$> seq 0 10) = data.
Proof.
  pose proof (equal_chunks_concat (length data / 10) 9 data) as Hconcat.
  change (chunk_of data <$> seq 0 10)
    with (((λ i, take (length data / 10) (drop (i * (length data / 10)) data)) <$> seq 0 9)
          ++ [drop (9 * (length data / 10)) data]).
  by rewrite concat_app, (concat_cons _ []), concat_nil, app_nil_r.
Qed.

Lemma chunk_of_length (data : list byte) (i : nat) :
  (i < 10)%nat →
  length (chunk_of data i)
  = if (i =? 9)%nat then (length data / 10 + length data mod 10)%nat
    else (length data / 10)%nat.
Proof.
  intros Hi. unfold chunk_of.
  pose proof (Nat.div_mod_eq (length data) 10) as Hdiv.
  set (k := (length data / 10)%nat) in *.
  set (r := (length data mod 10)%nat) in *.
  destruct (i =? 9)%nat eqn:Hlast.
  - rewrite length_drop. lia.
  - apply Nat.eqb_neq in Hlast. rewrite length_take, length_drop.
    assert (i * k + k ≤ 9 * k)%nat by nia. lia.
Qed.

(** The loop of [splitArchive] over the layers [s .. s+n-1], none of which
    is the last: the reader advances by [n] chunks, each layer file gets
    its chunk, and no other path is written. *)
Lemma split_prefix (k r : Z) (n : nat) :
  ∀ (s : nat) (file : list byte) (fs : FS),
    (s + n ≤ 9)%nat →
    (foldl (splitLayer k r) (file, fs) (seq s n)).1 = drop (n * Z.to_nat k) file
    ∧ (∀ j, (j < n)%nat →
         (foldl (splitLayer k r) (file, fs) (seq s n)).2 !! layerFile (s + j)
         = Some (take (Z.to_nat k) (drop (j * Z.to_nat k) file)))
    ∧ (∀ p, (∀ j, (j < n)%nat → p ≠ layerFile (s + j)) →
         (foldl (splitLayer k r) (file, fs) (seq s n)).2 !! p = fs !! p).
Proof.
  induction n as [| n IH]; intros s file fs Hbound.
  - simpl. split; [done |]. split; [intros j Hj; lia | done].
  - cbn [seq foldl].
    assert ((s =? 9)%nat = false) as Hnot_last by (apply Nat.eqb_neq; lia).
    assert (splitLayer k r (file, fs) s
            = (drop (Z.to_nat k) file, <[layerFile s := take (Z.to_nat k) file]> fs))
      as -> by (unfold splitLayer, io_CopyN; by rewrite Hnot_last).
    destruct (IH (S s) (drop (Z.to_nat k) file)
                (<[layerFile s := take (Z.to_nat k) file]> fs)) as (Hfile & Hlayers & Hother);
      [lia |].
    split; [| split].
    + by rewrite Hfile, drop_drop.
    + intros [| j] Hj.
      * rewrite Hother.
        -- rewrite Nat.add_0_r, lookup_insert_eq. by rewrite drop_0.
        -- intros j' _ Heq. apply layerFile_inj in Heq. lia.
      * replace (s + S j)%nat with (S s + j)%nat by lia.
        rewrite Hlayers by lia. by rewrite drop_drop.
    + intros p Hp. rewrite Hother.
      * apply lookup_insert_ne. intros Heq. apply (Hp 0%nat); [lia |].
        by rewrite Nat.add_0_r.
      * intros j Hj. replace (S s + j)%nat with (s + S j)%nat by lia.
        apply Hp. lia.
Qed.

Lemma int_wrap_small (z : Z) : - 2 ^ 63 ≤ z < 2 ^ 63 → int_wrap z = z.
Proof. intros Hz. unfold int_wrap. rewrite Z.mod_small; lia. Qed.

Lemma quot_10_of_nat (n : nat) : Z.to_nat (Z.quot (Z.of_nat n) 10) = (n / 10)%nat.
Proof.
  rewrite Z.quot_div_nonneg by lia.
  change 10 with (Z.of_nat 10). by rewrite <- Nat2Z.inj_div, Nat2Z.id.
Qed.

Lemma rem_10_of_nat (n : nat) : Z.rem (Z.of_nat n) 10 = Z.of_nat (n mod 10).
Proof.
  rewrite Z.rem_mod_nonneg by lia.
  change 10 with (Z.of_nat 10). by rewrite <- Nat2Z.inj_mod.
Qed.

(** [splitArchive] on an archive that is there: it returns no error, layer
    [i] holds [chunk_of data i] for the ten layers, and no other path is
    written. *)
Lemma splitArchive_layers (fs : FS) (data : list byte) :
  fs !! bedrockArchive = Some data →
  Z.of_nat (length data) < 2 ^ 63 →
  ∃ fs1, splitArchive bedrockArchive fs = (None, fs1)
    ∧ (∀ i, (i < 10)%nat → fs1 !! layerFile i = Some (chunk_of data i))
    ∧ (∀ p, (∀ i, (i < 10)%nat → p ≠ layerFile i) → fs1 !! p = fs !! p).
Proof.
  intros Harchive Hsize. unfold splitArchive. rewrite Harchive.
  eexists. split; [reflexivity |].
  set (k := Z.quot (Z.of_nat (length data)) 10).
  set (r := Z.rem (Z.of_nat (length data)) 10).
  change (seq 0 10) with (seq 0 9 ++ [9%nat]). rewrite foldl_app.
  destruct (split_prefix k r 9 0 data fs) as (Hfile & Hlayers & Hother); [lia |].
  destruct (foldl (splitLayer k r) (data, fs) (seq 0 9)) as [file9 fs9].
  simpl in Hfile, Hlayers, Hother. subst file9.
  assert (Z.to_nat k = (length data / 10)%nat) as Hk by apply quot_10_of_nat.
  assert (r = Z.of_nat (length data mod 10)) as Hr by apply rem_10_of_nat.
  pose proof (Nat.div_mod_eq (length data) 10) as Hdiv.
  pose proof (Nat.mod_upper_bound (length data) 10) as Hmod.
  assert (0 ≤ k) as Hk0 by (apply Z.quot_pos; lia).
  assert (take (Z.to_nat (int_add k r))
            (drop (Z.to_nat k + (Z.to_nat k + (Z.to_nat k + (Z.to_nat k + (Z.to_nat k
                   + (Z.to_nat k + (Z.to_nat k + (Z.to_nat k + (Z.to_nat k + 0))))))))) data)
          = chunk_of data 9) as Hlast.
  { unfold chunk_of. cbn [Nat.eqb]. rewrite <- Hk.
    replace (9 * Z.to_nat k)%nat
      with (Z.to_nat k + (Z.to_nat k + (Z.to_nat k + (Z.to_nat k + (Z.to_nat k
             + (Z.to_nat k + (Z.to_nat k + (Z.to_nat k + (Z.to_nat k + 0)))))))))%nat by lia.
    apply take_ge. rewrite length_drop. unfold int_add.
    rewrite int_wrap_small by lia. lia. }
  cbn [foldl splitLayer io_CopyN Nat.eqb snd]. rewrite Hlast.
  split.
  - intros i Hi. destruct (decide (i = 9%nat)) as [-> | Hne].
    + by rewrite lookup_insert_eq.
    + rewrite lookup_insert_ne by (intros Heq; apply layerFile_inj in Heq; lia).
      rewrite (Hlayers i) by lia. unfold chunk_of.
      assert ((i =? 9)%nat = false) as -> by (apply Nat.eqb_neq; lia).
      by rewrite Hk.
  - intros p Hp. rewrite lookup_insert_ne by (intros Heq; by apply (Hp 9%nat); [lia |]).
    apply Hother. intros j Hj. apply Hp. lia.
Qed.

(** The loop of [recombineLayers] when every layer it asks for is there. *)
Lemma appendLayers_all_present (layers : list nat) (chunks : list (list byte)) :
  ∀ (output : list byte) (fs : FS),
    Forall2 (λ i chunk, fs !! layerFile i = Some chunk) layers chunks →
    fs !! recombinedFile = Some output →
    appendLayers layers output fs
    = (None, <[recombinedFile := output ++ concat chunks]> fs).
Proof.
  revert chunks. induction layers as [| i layers IH]; intros chunks output fs Hall Hout.
  - apply Forall2_nil_inv_l in Hall as ->. simpl.
    rewrite app_nil_r. by rewrite insert_id.
  - apply Forall2_cons_inv_l in Hall as (chunk & chunks' & Hchunk & Hrest & ->).
    cbn [appendLayers]. rewrite Hchunk.
    rewrite (IH chunks').
    + rewrite insert_insert_eq. simpl. by rewrite app_assoc.
    + eapply Forall2_impl; [exact Hrest |]. intros j c Hj. simpl.
      rewrite lookup_insert_ne; [done |]. intros Heq. symmetry in Heq.
      by apply layerFile_not_recombined in Heq.
    + by rewrite lookup_insert_eq.
Qed.

(** The ten layer files as [recombineLayers] finds them. *)
Lemma layers_present (fs : FS) (chunk : nat → list byte) :
  (∀ i, (i < 10)%nat → fs !! layerFile i = Some (chunk i)) →
  Forall2 (λ i c, <[recombinedFile := []]> fs !! layerFile i = Some c)
    (seq 0 10) (chunk <$> seq 0 10).
Proof.
  intros Hlayers. apply Forall2_fmap_r, Forall_Forall2_diag, Forall_forall.
  intros i Hi. apply elem_of_seq in Hi.
  rewrite lookup_insert_ne; [apply Hlayers; lia |].
  intros Heq. symmetry in Heq. by apply layerFile_not_recombined in Heq.
Qed.

Lemma recombine_output (sha256 : list byte → list byte) (fs : FS) (chunk : nat → list byte) :
  (∀ i, (i < 10)%nat → fs !! layerFile i = Some (chunk i)) →
  recombineLayers sha256 fs
  = let fs2 := <[recombinedFile := concat (chunk <$> seq 0 10)]> fs in
    match verifyIntegrity sha256 fs2 with
    | Some _ => (Some "integrity check failed", fs2)
    | None => (None, fs2)
    end.
Proof.
  intros Hlayers. unfold recombineLayers.
  rewrite (appendLayers_all_present (seq 0 10) (chunk <$> seq 0 10) []
             (<[recombinedFile := []]> fs) (layers_present fs chunk Hlayers))
    by apply lookup_insert_eq.
  by rewrite insert_insert_eq, app_nil_l.
Qed.

(** C2. For a payload [data] (of any size that a file can have),
    [splitArchive] writes ten layer files: layers 0..8 hold
    [floor(size/10)] bytes each, layer 9 holds [floor(size/10) + size mod 10]
    bytes, layer [i] is the [i]-th consecutive range of [data]
    ([chunk_of]), and the ranges in index order make up [data].
    [recombineLayers] then returns no error and the recombined file is
    [data], byte for byte. *)
Theorem split_recombine_roundtrip (sha256 : list byte → list byte) (fs : FS)
    (data : list byte) :
  fs !! bedrockArchive = Some data →
  Z.of_nat (length data) < 2 ^ 63 →
  ∃ fs1 fs2,
    splitArchive bedrockArchive fs = (None, fs1)
    ∧ (∀ i, (i < 10)%nat → fs1 !! layerFile i = Some (chunk_of data i))
    ∧ (∀ i, (i < 9)%nat →
         Z.of_nat (length (chunk_of data i)) = Z.of_nat (length data) / 10)
    ∧ Z.of_nat (length (chunk_of data 9))
      = Z.of_nat (length data) / 10 + Z.of_nat (length data) mod 10
    ∧ concat (chunk_of data <$> seq 0 10) = data
    ∧ recombineLayers sha256 fs1 = (None, fs2)
    ∧ fs2 !! recombinedFile = Some data
    ∧ fs2 !! bedrockArchive = Some data.
Proof.
  intros Harchive Hsize.
  destruct (splitArchive_layers fs data Harchive Hsize) as (fs1 & Hsplit & Hlayers & Hother).
  exists fs1, (<[recombinedFile := data]> fs1).
  assert (fs1 !! bedrockArchive = Some data) as Harchive1.
  { rewrite Hother; [done |]. intros i _ Heq. symmetry in Heq.
    by apply layerFile_not_archive in Heq. }
  split; [done |]. split; [done |]. split; [| split; [| split; [| split; [| split]]]].
  - intros i Hi. rewrite chunk_of_length by lia.
    assert ((i =? 9)%nat = false) as -> by (apply Nat.eqb_neq; lia).
    by rewrite Nat2Z.inj_div.
  - rewrite chunk_of_length by lia. cbn [Nat.eqb].
    by rewrite Nat2Z.inj_add, Nat2Z.inj_div, Nat2Z.inj_mod.
  - apply chunks_concat.
  - rewrite (recombine_output sha256 fs1 (chunk_of data) Hlayers).
    rewrite chunks_concat. cbn zeta. unfold verifyIntegrity, calculateFileHash.
    rewrite lookup_insert_ne by done. rewrite Harchive1, lookup_insert_eq.
    by rewrite String.eqb_refl.
  - by rewrite lookup_insert_eq.
  - by rewrite lookup_insert_ne.
Qed.

Lemma split_recombine_roundtrip_witness :
  ∃ fs1 fs2,
    splitArchive bedrockArchive ({[ bedrockArchive := payload25 ]} : FS) = (None, fs1)
    ∧ fs1 !! layerFile 0 = Some [x00; x01]%byte
    ∧ fs1 !! layerFile 9 = Some [x12; x13; x14; x15; x16; x17; x18]%byte
    ∧ recombineLayers toy_hash fs1 = (None, fs2)
    ∧ fs2 !! recombinedFile = Some payload25.
Proof.
  assert (({[ bedrockArchive := payload25 ]} : FS) !! bedrockArchive = Some payload25)
    as Harchive by reflexivity.
  assert (Z.of_nat (length payload25) < 2 ^ 63) as Hsize by reflexivity.
  destruct (split_recombine_roundtrip toy_hash _ payload25 Harchive Hsize)
    as (fs1 & fs2 & Hsplit & Hlayers & _ & _ & _ & Hrecombine & Hout & _).
  exists fs1, fs2. split; [exact Hsplit |].
  split; [exact (Hlayers 0%nat ltac:(lia)) |].
  split; [exact (Hlayers 9%nat ltac:(lia)) |].
  split; [exact Hrecombine | exact Hout].
Defined.

(** ** The archive assembler: integrity *)

Lemma hex_digits_decode (b : byte) :
  Byte.of_N (16 * fromHexChar (hex_digit (N.shiftr (Byte.to_N b) 4))
             + fromHexChar (hex_digit (N.land (Byte.to_N b) 15)))
  = Some b.
Proof. by destruct b. Qed.

Lemma hex_EncodeToString_inj (a b : list byte) :
  hex_EncodeToString a = hex_EncodeToString b → a = b.
Proof.
  revert b. induction a as [| x a IH]; intros [| y b] Heq; try done.
  simpl in Heq. injection Heq as Hhi Hlo Hrest.
  f_equal; [| by apply IH].
  pose proof (hex_digits_decode x) as Hx. rewrite Hhi, Hlo, hex_digits_decode in Hx.
  by injection Hx.
Qed.

(** Lists of chunks of the same sizes with the same concatenation are the
    same chunk by chunk. *)
Lemma concat_same_sizes_inj {A} (f g : nat → list A) (layers : list nat) :
  (∀ i, i ∈ layers → length (f i) = length (g i)) →
  concat (f <$> layers) = concat (g <$> layers) →
  ∀ i, i ∈ layers → f i = g i.
Proof.
  induction layers as [| l layers IH]; intros Hlen Heq i Hi.
  - by apply elem_of_nil in Hi.
  - simpl in Heq. apply app_inj_1 in Heq as [Hhead Htail];
      [| apply Hlen; by left].
    apply elem_of_cons in Hi as [-> | Hi]; [done |].
    apply IH; [| done | done]. intros j Hj. apply Hlen. by right.
Qed.

(** Bytes overwritten in place: when the chunks have the sizes of the
    split, a byte that differs makes the concatenation differ. *)
Lemma flipped_in_place_differs (data : list byte) (chunk : nat → list byte) :
  (∀ i, (i < 10)%nat → length (chunk i) = length (chunk_of data i)) →
  byte_differs data chunk →
  concat (chunk <$> seq 0 10) ≠ data.
Proof.
  intros Hlen (i & j & b & Hi & Hbyte & Hdiff) Heq. apply Hdiff.
  assert (concat (chunk <$> seq 0 10) = concat (chunk_of data <$> seq 0 10)) as Hsame
    by (by rewrite chunks_concat).
  rewrite <- (concat_same_sizes_inj chunk (chunk_of data) (seq 0 10)); [done | | done |].
  - intros i' Hi'. apply elem_of_seq in Hi'. apply Hlen. lia.
  - apply elem_of_seq. lia.
Qed.

Section IntegrityProperties.

Variable sha256 : list byte → list byte.

Lemma verifyIntegrity_mismatch (fs : FS) (original recombined : list byte) :
  fs !! bedrockArchive = Some original →
  fs !! recombinedFile = Some recombined →
  original ≠ recombined →
  collision_free sha256 original recombined →
  verifyIntegrity sha256 fs = Some "integrity check failed: hashes don't match".
Proof.
  intros Horiginal Hrecombined Hdiff Hfree.
  unfold verifyIntegrity, calculateFileHash. rewrite Horiginal, Hrecombined.
  destruct (String.eqb _ _) eqn:Hhash; [| done].
  apply String.eqb_eq, hex_EncodeToString_inj in Hhash. by apply Hfree in Hhash.
Qed.

Lemma verifyIntegrity_same (fs : FS) (data : list byte) :
  fs !! bedrockArchive = Some data →
  fs !! recombinedFile = Some data →
  verifyIntegrity sha256 fs = None.
Proof.
  intros Horiginal Hrecombined.
  unfold verifyIntegrity, calculateFileHash. rewrite Horiginal, Hrecombined.
  by rewrite String.eqb_refl.
Qed.

(** [recombineLayers] on a disk whose chunk set does not make up the
    payload. *)
Lemma recombine_corrupted (disk : FS) (data : list byte) (chunk : nat → list byte) :
  disk !! bedrockArchive = Some data →
  (∀ i, (i < 10)%nat → disk !! layerFile i = Some (chunk i)) →
  concat (chunk <$> seq 0 10) ≠ data →
  collision_free sha256 data (concat (chunk <$> seq 0 10)) →
  recombineLayers sha256 disk
  = (Some "integrity check failed",
     <[recombinedFile := concat (chunk <$> seq 0 10)]> disk).
Proof.
  intros Harchive Hlayers Hdiff Hfree.
  rewrite (recombine_output sha256 disk chunk Hlayers). cbn zeta.
  rewrite (verifyIntegrity_mismatch _ data (concat (chunk <$> seq 0 10))); [done | | | | done].
  - by rewrite lookup_insert_ne.
  - by rewrite lookup_insert_eq.
  - by intros ->.
Qed.

(** [recombineLayers] on a disk whose chunk set makes up the payload,
    wherever the chunks are cut. *)
Lemma recombine_same_payload (disk : FS) (data : list byte) (chunk : nat → list byte) :
  disk !! bedrockArchive = Some data →
  (∀ i, (i < 10)%nat → disk !! layerFile i = Some (chunk i)) →
  concat (chunk <$> seq 0 10) = data →
  recombineLayers sha256 disk = (None, <[recombinedFile := data]> disk).
Proof.
  intros Harchive Hlayers Hsame.
  rewrite (recombine_output sha256 disk chunk Hlayers), Hsame. cbn zeta.
  rewrite (verifyIntegrity_same _ data); [done | |].
  - by rewrite lookup_insert_ne.
  - by rewrite lookup_insert_eq.
Qed.

Lemma cleanupLayers_keeps_archive (fs : FS) :
  cleanupLayers fs !! bedrockArchive = fs !! bedrockArchive.
Proof.
  unfold cleanupLayers. cbn [seq foldl].
  rewrite lookup_delete_ne by done. rewrite lookup_os_RemoveAll.
  change (under extractDir bedrockArchive) with false. cbn iota.
  by rewrite !lookup_delete_ne by apply layerFile_not_archive.
Qed.

Lemma splitArchive_no_error (fs : FS) (data : list byte) :
  fs !! bedrockArchive = Some data →
  (splitArchive bedrockArchive fs).1 = None.
Proof. intros Harchive. unfold splitArchive. by rewrite Harchive. Qed.

Variable filepath_Abs : string → result string.
Variable extract_tools : list byte → FS → FS * option error.
Variable interfere : FS → FS.
Variable launch : nat → StartOutcome.

(** A failed initialisation ends [Start] before the first poll. *)
Lemma Start_init_failure (initial : Poll) (ticks : list Poll) (m m' : Manager)
    (w : World) (fs fs' : FS) (e : error) :
  initializeBedrockServer sha256 filepath_Abs extract_tools interfere m fs
    = (Some e, m', fs') →
  Start sha256 filepath_Abs extract_tools interfere launch initial ticks (m, w) fs
    = Returns ((m', cleanupPortsOnStartup w), fs').
Proof. intros Hinit. unfold Start. by rewrite Hinit. Qed.

(** C3, as the code has it. Let the archive hold [data], and let the layer
    files that [recombineLayers] finds hold a chunk set whose concatenation
    in index order is not [data] (as it is when bytes are overwritten in
    place: [flipped_in_place_differs]). If the hash does not collide on
    [data] and that concatenation, the integrity check fails,
    [recombineLayers] returns an error, and [Start] returns after the
    clean-up of the ports: no poll is run, the manager is as it was, and
    the trace has no start that was not there before. *)
Theorem corrupted_payload_aborts_start (initial : Poll) (ticks : list Poll)
    (m : Manager) (w : World) (fs : FS) (data : list byte) (chunk : nat → list byte) :
  fs !! bedrockArchive = Some data →
  let disk := interfere (splitArchive bedrockArchive (cleanupLayers fs)).2 in
  disk !! bedrockArchive = Some data →
  (∀ i, (i < 10)%nat → disk !! layerFile i = Some (chunk i)) →
  concat (chunk <$> seq 0 10) ≠ data →
  collision_free sha256 data (concat (chunk <$> seq 0 10)) →
  (∃ e, verifyIntegrity sha256 (<[recombinedFile := concat (chunk <$> seq 0 10)]> disk)
        = Some e)
  ∧ (∃ e disk', recombineLayers sha256 disk = (Some e, disk'))
  ∧ ∃ w' fs',
      Start sha256 filepath_Abs extract_tools interfere launch initial ticks (m, w) fs
        = Returns ((m, w'), fs')
      ∧ trace w' = trace w ++ (AReclaim <$> startupPorts)
      ∧ ∀ name cmd port,
          AStart name cmd port ∈ trace w' → AStart name cmd port ∈ trace w.
Proof.
  intros Harchive disk Hintact Hlayers Hdiff Hfree.
  pose proof (recombine_corrupted disk data chunk Hintact Hlayers Hdiff Hfree)
    as Hrecombine.
  split; [| split].
  - eexists. apply (verifyIntegrity_mismatch _ data (concat (chunk <$> seq 0 10))).
    + by rewrite lookup_insert_ne.
    + by rewrite lookup_insert_eq.
    + by intros ->.
    + done.
  - by do 2 eexists.
  - exists (cleanupPortsOnStartup w),
      (<[recombinedFile := concat (chunk <$> seq 0 10)]> disk).
    split; [| split].
    + apply (Start_init_failure _ _ _ _ _ _ _ "failed to recombine layers").
      unfold initializeBedrockServer. rewrite Harchive.
      pose proof (splitArchive_no_error (cleanupLayers fs) data) as Hsplit.
      rewrite cleanupLayers_keeps_archive in Hsplit. specialize (Hsplit Harchive).
      fold disk in Hrecombine.
      destruct (splitArchive bedrockArchive (cleanupLayers fs)) as [e fs1].
      simpl in Hsplit. subst e. simpl in disk. subst disk.
      rewrite Hrecombine. reflexivity.
    + done.
    + intros name cmd port. unfold cleanupPortsOnStartup, emit. cbn [trace].
      rewrite elem_of_app. intros [Hin | Hin]; [done |].
      apply list_elem_of_fmap in Hin as (p & Heq & _). discriminate Heq.
Qed.

End IntegrityProperties.

(** With the layer files left alone the same run passes the integrity
    check and goes on to the first poll, which starts [A]. *)
Lemma intact_chunks_reach_first_poll :
  match Start toy_hash toy_Abs toy_extract id always_launched sample_poll
          [sample_poll] (NewManager (sample_config 5 false), world0) sample_fs with
  | Returns (s, _) => existsb is_start (trace s.2)
  | Panics _ => false
  end = true.
Proof. vm_compute. reflexivity. Qed.

Lemma shifted_disk_layers (i : nat) :
  (i < 10)%nat → shifted_disk !! layerFile i = Some (shifted_chunk i).
Proof.
  intros Hi. do 10 (destruct i as [| i]; [vm_compute; reflexivity |]). lia.
Qed.

(** C3 as stated fails. Move the boundary between two chunks: the first
    byte of chunk 1 is then 0x03 where the range that the split cut for
    chunk 1 has 0x02, so a byte of a chunk differs from the byte at its
    place. The chunks still make up the payload, so the integrity check
    passes whatever the hash function is, [recombineLayers] returns no
    error, and [Start] goes on to the first poll, which starts [A]. *)
Lemma shifted_chunks_pass_check :
  byte_differs payload25 shifted_chunk
  ∧ (∀ hash, verifyIntegrity hash (<[recombinedFile := payload25]> shifted_disk) = None)
  ∧ (∀ hash, recombineLayers hash shifted_disk
             = (None, <[recombinedFile := payload25]> shifted_disk))
  ∧ match Start toy_hash toy_Abs toy_extract shift_layers always_launched sample_poll
            [sample_poll] (NewManager (sample_config 5 false), world0) sample_fs with
    | Returns (s, _) => existsb is_start (trace s.2)
    | Panics _ => false
    end = true.
Proof.
  assert (shifted_disk !! bedrockArchive = Some payload25) as Harchive
    by (vm_compute; reflexivity).
  split; [| split; [| split]].
  - exists 1%nat, 0%nat, x03%byte. split; [lia |]. split; [vm_compute; reflexivity |].
    vm_compute. discriminate.
  - intros hash. apply (verifyIntegrity_same hash _ payload25).
    + by rewrite lookup_insert_ne.
    + by rewrite lookup_insert_eq.
  - intros hash.
    apply (recombine_same_payload hash shifted_disk payload25 shifted_chunk Harchive).
    + apply shifted_disk_layers.
    + vm_compute. reflexivity.
  - vm_compute. reflexivity.
Qed.

Lemma corrupted_payload_aborts_start_witness :
  ∃ w' fs',
    Start toy_hash toy_Abs toy_extract flip_layer3 always_launched sample_poll
      [sample_poll] (NewManager (sample_config 5 false), world0) sample_fs
    = Returns ((NewManager (sample_config 5 false), w'), fs')
    ∧ trace w' = AReclaim <$> startupPorts.
Proof.
  assert (sample_fs !! bedrockArchive = Some payload25) as Harchive by reflexivity.
  assert (sample_disk !! bedrockArchive = Some payload25) as Hintact
    by (vm_compute; reflexivity).
  assert (∀ i, (i < 10)%nat → sample_disk !! layerFile i = Some (sample_chunk i))
    as Hlayers.
  { intros i Hi. do 10 (destruct i as [| i]; [vm_compute; reflexivity |]). lia. }
  assert (concat (sample_chunk <$> seq 0 10) ≠ payload25) as Hdiff.
  { vm_compute. discriminate. }
  assert (collision_free toy_hash payload25 (concat (sample_chunk <$> seq 0 10)))
    as Hfree.
  { intros Hhash. exact Hhash. }
  destruct (corrupted_payload_aborts_start toy_hash toy_Abs toy_extract flip_layer3
              always_launched sample_poll [sample_poll]
              (NewManager (sample_config 5 false)) world0 sample_fs payload25
              sample_chunk Harchive Hintact Hlayers Hdiff Hfree)
    as (_ & _ & w' & fs' & Hstart & Htrace & _).
  exists w', fs'. split; [exact Hstart | exact Htrace].
Defined.

(** ** The status snapshot *)

Lemma GetStatus_loop_running (entries : list (string * MinecraftServer))
    (status : ManagerStatus) :
  Forall (λ entry, Status entry.2 ≠ "running") entries →
  Running
    (foldl (λ status '(name, server),
              let serverStatus :=
                {| ss_Name := name; ss_Status := Status server; ss_Port := Port server |} in
              {| TotalServers := TotalServers status;
                 Running := if String.eqb (Status server) "running"
                            then int_add (Running status) 1 else Running status;
                 Stopped := if String.eqb (Status server) "running"
                            then Stopped status else int_add (Stopped status) 1;
                 Servers := Servers status ++ [serverStatus];
                 ms_BedrockPath := ms_BedrockPath status |})
           status entries)
  = Running status.
Proof.
  intros Hall. revert status.
  induction Hall as [| [name server] entries Hstatus _ IH]; intros status; [done |].
  cbn [foldl]. rewrite IH. cbn [Running].
  apply String.eqb_neq in Hstatus. simpl in Hstatus. by rewrite Hstatus.
Qed.

(** X24. No state of the fleet that starts, stops and exit reports can reach
    has a running count other than zero: no transition writes "running". *)
Lemma running_count_always_zero (launch : nat → StartOutcome) (cfg : config.Config)
    (s : State) :
  reachable launch cfg s → Running (GetStatus s.1) = 0.
Proof.
  intros Hreach.
  apply (reachable_invariant launch (λ s, status_written s.1) cfg
           (status_written_initially cfg) (lifecycle_status_written launch)) in Hreach.
  unfold GetStatus. rewrite GetStatus_loop_running; [done |].
  apply Forall_forall. intros [name server] Hentry.
  apply elem_of_map_to_list in Hentry.
  destruct (Hreach name server Hentry) as [Hst | [Hst | Hst]];
    simpl; rewrite Hst; discriminate.
Qed.

(** * Further properties *)

(** ** The reconciler: what a diff leaves in the fleet map *)
Section DiffProperties.

Variable launch : nat → StartOutcome.

Lemma startServer_world (p : loc) (m : Manager) (w : World) :
  cells (startServer launch p (m, w)).2 = cells w
  ∧ spawns (startServer launch p (m, w)).2 = S (spawns w).
Proof. unfold startServer. by destruct (launch (spawns w)). Qed.

Lemma startServer_settings (p : loc) (m : Manager) (w : World) :
  same_settings m (startServer launch p (m, w)).1.
Proof. unfold startServer. by destruct (launch (spawns w)). Qed.

Lemma stopServer_settings (name : string) (s : State) :
  same_settings s.1 (stopServer name s).1.
Proof.
  destruct s as [m w]. unfold stopServer. simpl. by destruct (servers m !! name).
Qed.

Lemma same_settings_trans (m1 m2 m3 : Manager) :
  same_settings m1 m2 → same_settings m2 m3 → same_settings m1 m3.
Proof. unfold same_settings. intros (-> & -> & -> & ->) (-> & -> & -> & ->). done. Qed.

(** [startServer] writes at most the entry of the name in the cell it is
    given. *)
Lemma startServer_other (p : loc) (m : Manager) (w : World) (k : string) :
  k ≠ config.Name (deref w p) →
  servers (startServer launch p (m, w)).1 !! k = servers m !! k.
Proof.
  intros Hk. destruct (startServer_cases launch p m w) as [-> | [_ ->]]; [done |].
  simpl. by rewrite lookup_insert_ne.
Qed.

Lemma deref_stored (p : loc) (c : config.MinecraftServerConfig) (w : World) :
  (p < length (cells w))%nat → deref (store_cell p c w) p = c.
Proof.
  intros Hp. unfold deref, store_cell. simpl. by rewrite list_lookup_insert_eq.
Qed.

Lemma deref_stored_other (p q : loc) (c : config.MinecraftServerConfig) (w : World) :
  q ≠ p → deref (store_cell p c w) q = deref w q.
Proof.
  intros Hq. unfold deref, store_cell. simpl. by rewrite list_lookup_insert_ne.
Qed.

Lemma deref_emit (acts : list Action) (w : World) (q : loc) :
  deref (emit acts w) q = deref w q.
Proof. done. Qed.

(** One iteration of the second loop: the range variable takes the spec,
    no other cell is written, and no entry of another name is touched. *)
Lemma reconcileOne_frame (p : loc) (m : Manager) (w : World)
    (c : config.MinecraftServerConfig) :
  (p < length (cells w))%nat →
  cells (reconcileOne launch p (m, w) c).2 = <[p := c]> (cells w)
  ∧ same_settings m (reconcileOne launch p (m, w) c).1
  ∧ (∀ k, k ≠ config.Name c →
       servers (reconcileOne launch p (m, w) c).1 !! k = servers m !! k).
Proof.
  intros Hp. unfold reconcileOne.
  pose proof (deref_stored p c w Hp) as Hderef.
  destruct (_ <=? _); [done |].
  destruct (servers m !! config.Name c) as [existing |] eqn:Hlookup.
  - destruct (serverConfigChanged _ _); [| done].
    unfold stopServer. rewrite Hlookup.
    set (m1 := set_servers (delete (config.Name c)) m).
    set (w1 := emit _ (store_cell p c w)).
    pose proof (startServer_world p m1 w1) as [Hcells _].
    pose proof (startServer_settings p m1 w1) as Hset.
    split; [by rewrite Hcells |]. split; [done |].
    intros k Hk. rewrite startServer_other by (unfold w1; by rewrite deref_emit, Hderef).
    simpl. by rewrite lookup_delete_ne.
  - set (w1 := store_cell p c w).
    pose proof (startServer_world p m w1) as [Hcells _].
    pose proof (startServer_settings p m w1) as Hset.
    split; [by rewrite Hcells |]. split; [done |].
    intros k Hk. by rewrite startServer_other by (unfold w1; by rewrite Hderef).
Qed.

End DiffProperties.

Section DiffLoops.

Variable launch : nat → StartOutcome.

(** The removal loop never adds an entry, and drops every key it visits
    that is not desired. *)
Lemma removal_loop_drops (names keys : list string) (s : State) (k : string) :
  let s' := foldl (λ s name, if bool_decide (name ∈ names) then s else stopServer name s)
              s keys in
  servers s'.1 !! k = None
  ∨ (servers s'.1 !! k = servers s.1 !! k ∧ (k ∈ keys → k ∈ names)).
Proof.
  revert s. induction keys as [| key keys IH]; intros s.
  - right. split; [done |]. intros Hk. by apply elem_of_nil in Hk.
  - cbn [foldl]. case_bool_decide as Hkey.
    + destruct (IH s) as [Hnone | [Heq Hin]]; [by left |].
      right. split; [done |]. intros Hk. apply elem_of_cons in Hk as [-> | Hk]; auto.
    + destruct (IH (stopServer key s)) as [Hnone | [Heq Hin]]; [by left |].
      rewrite stopServer_servers in Heq.
      destruct (decide (k = key)) as [-> | Hne].
      * left. by rewrite Heq, lookup_delete_eq.
      * right. rewrite lookup_delete_ne in Heq by done. split; [done |].
        intros Hk. apply elem_of_cons in Hk as [-> | Hk]; [done | auto].
Qed.

Lemma removal_loop_settings (names keys : list string) (s : State) :
  same_settings s.1
    (foldl (λ s name, if bool_decide (name ∈ names) then s else stopServer name s)
       s keys).1.
Proof.
  revert s. induction keys as [| key keys IH]; intros s; [done |].
  cbn [foldl]. case_bool_decide; [apply IH |].
  eapply same_settings_trans; [apply stopServer_settings | apply IH].
Qed.

(** The second loop: the store keeps its length, the cells before the
    range variable are not written, the settings stay, and an entry whose
    name is not in the list is not touched. *)
Lemma second_loop_frame (p : loc) (specs : list config.MinecraftServerConfig) :
  ∀ (s : State),
    (p < length (cells s.2))%nat →
    let s' := foldl (reconcileOne launch p) s specs in
    length (cells s'.2) = length (cells s.2)
    ∧ (∀ q, q ≠ p → cells s'.2 !! q = cells s.2 !! q)
    ∧ same_settings s.1 s'.1
    ∧ (∀ k, k ∉ config.Name <$> specs → servers s'.1 !! k = servers s.1 !! k).
Proof.
  induction specs as [| c specs IH]; intros [m w] Hp; [done |].
  cbn [foldl]. simpl in Hp.
  destruct (reconcileOne_frame launch p m w c Hp) as (Hcells & Hset & Hother).
  destruct (reconcileOne launch p (m, w) c) as [m1 w1] eqn:Hstep. simpl in *.
  assert (length (cells w1) = length (cells w)) as Hlen
    by (by rewrite Hcells, length_insert).
  destruct (IH (m1, w1)) as (Hlen' & Hcells' & Hset' & Hother'); [simpl; lia |].
  simpl in *. split; [lia |]. split; [| split].
  - intros q Hq. rewrite Hcells' by done. rewrite Hcells.
    by apply list_lookup_insert_ne.
  - by eapply same_settings_trans.
  - intros k Hk. apply not_elem_of_cons in Hk as [Hne Hk].
    rewrite Hother' by done. by apply Hother.
Qed.

Lemma alloc_cell_valid (w w' : World) (p : loc) :
  alloc_cell w = (p, w') →
  (p < length (cells w'))%nat ∧ p = length (cells w)
  ∧ cells w' = cells w ++ [config.zero] ∧ spawns w' = spawns w ∧ trace w' = trace w.
Proof.
  unfold alloc_cell. intros [= <- <-]. simpl. rewrite length_app. simpl.
  repeat split. lia.
Qed.

Lemma updateServers_settings (repoConfig : config.RepoConfig) (s : State) :
  same_settings s.1 (updateServers launch repoConfig s).1.
Proof.
  unfold updateServers.
  pose proof (removal_loop_settings (config.Name <$> config.Servers repoConfig)
                (map_to_list (servers s.1)).*1 s) as Hremoval.
  destruct (foldl _ s _) as [m1 w1]. cbn [fst snd] in *.
  destruct (alloc_cell w1) as [p w2] eqn:Halloc.
  eapply same_settings_trans; [exact Hremoval |].
  destruct (second_loop_frame p (config.Servers repoConfig) (m1, w2))
    as (_ & _ & Hset & _); [exact (proj1 (alloc_cell_valid _ _ _ Halloc)) | done].
Qed.

(** X1. After [updateServers] every name in the fleet map is the name of
    a spec of the desired state. *)
Theorem updateServers_tracks_only_desired (repoConfig : config.RepoConfig) (s : State)
    (k : string) :
  is_Some (servers (updateServers launch repoConfig s).1 !! k) →
  k ∈ config.Name <$> config.Servers repoConfig.
Proof.
  intros Htracked.
  destruct (decide (k ∈ config.Name <$> config.Servers repoConfig)) as [| Hnot]; [done |].
  exfalso. revert Htracked. unfold updateServers.
  pose proof (removal_loop_drops (config.Name <$> config.Servers repoConfig)
                (map_to_list (servers s.1)).*1 s k) as Hremoval.
  cbn zeta in Hremoval.
  destruct (foldl _ s _) as [m1 w1]. cbn [fst snd] in *.
  destruct (alloc_cell w1) as [p w2] eqn:Halloc.
  destruct (second_loop_frame p (config.Servers repoConfig) (m1, w2))
    as (_ & _ & _ & Hother); [exact (proj1 (alloc_cell_valid _ _ _ Halloc)) |].
  rewrite Hother by done.
  simpl. destruct Hremoval as [-> | [Heq Hin]]; [by intros [? ?] |].
  rewrite Heq. intros [server Hserver]. apply Hnot, Hin.
  apply list_elem_of_fmap. exists (k, server). split; [done |].
  by apply elem_of_map_to_list.
Qed.

End DiffLoops.

Section DiffBounds.

Variable launch : nat → StartOutcome.

Lemma startServer_size (p : loc) (m : Manager) (w : World) :
  (size (servers (startServer launch p (m, w)).1) ≤ S (size (servers m)))%nat
  ∧ (is_Some (servers m !! config.Name (deref w p)) →
     size (servers (startServer launch p (m, w)).1) = size (servers m)).
Proof.
  destruct (startServer_cases launch p m w) as [-> | [_ ->]]; [split; [lia | done] |].
  simpl. rewrite map_size_insert.
  split; [destruct (servers m !! _); simpl; lia |].
  by intros [server ->].
Qed.

Lemma reconcileOne_size (p : loc) (m : Manager) (w : World)
    (c : config.MinecraftServerConfig) :
  (p < length (cells w))%nat →
  Z.of_nat (size (servers (reconcileOne launch p (m, w) c).1))
  ≤ Z.max (Z.of_nat (size (servers m))) (config.MaxInstances (config.Server (mconfig m))).
Proof.
  intros Hp. unfold reconcileOne.
  pose proof (deref_stored p c w Hp) as Hderef.
  destruct (_ <=? _) eqn:Hcap; [simpl; lia |].
  apply Z.leb_gt in Hcap.
  destruct (servers m !! config.Name c) as [existing |] eqn:Hlookup.
  - destruct (serverConfigChanged _ _); [| simpl; lia].
    unfold stopServer. rewrite Hlookup.
    set (m1 := set_servers (delete (config.Name c)) m).
    set (w1 := emit _ (store_cell p c w)).
    pose proof (startServer_size p m1 w1) as [Hsize _].
    assert (size (servers m1) = pred (size (servers m))) as Hdeleted
      by (unfold m1; simpl; by rewrite map_size_delete, Hlookup).
    assert (size (servers m) ≠ 0%nat) as Hne.
    { intros Hzero. apply map_size_empty_inv in Hzero. rewrite Hzero in Hlookup.
      by rewrite lookup_empty in Hlookup. }
    lia.
  - pose proof (startServer_size p m (store_cell p c w)) as [Hsize _]. lia.
Qed.

Lemma second_loop_size (p : loc) (specs : list config.MinecraftServerConfig) (bound : Z) :
  ∀ (s : State),
    (p < length (cells s.2))%nat →
    config.MaxInstances (config.Server (mconfig s.1)) ≤ bound →
    Z.of_nat (size (servers s.1)) ≤ bound →
    Z.of_nat (size (servers (foldl (reconcileOne launch p) s specs).1)) ≤ bound.
Proof.
  induction specs as [| c specs IH]; intros [m w] Hp Hmax Hsize; [done |].
  cbn [foldl fst snd] in *.
  pose proof (reconcileOne_size p m w c Hp) as Hstep.
  destruct (reconcileOne_frame launch p m w c Hp) as (Hcells & (Hcfg & _) & _).
  destruct (reconcileOne launch p (m, w) c) as [m1 w1]. cbn [fst snd] in *.
  apply IH; cbn [fst snd].
  - rewrite Hcells, length_insert. lia.
  - by rewrite Hcfg.
  - lia.
Qed.

(** X2. [updateServers] never takes the fleet map above the larger of
    its size at entry and the configured maximum: a fleet within the
    maximum stays within it. *)
Theorem updateServers_respects_cap (repoConfig : config.RepoConfig) (s : State) :
  Z.of_nat (size (servers (updateServers launch repoConfig s).1))
  ≤ Z.max (Z.of_nat (size (servers s.1)))
      (config.MaxInstances (config.Server (mconfig s.1))).
Proof.
  unfold updateServers.
  pose proof (removal_loop (config.Name <$> config.Servers repoConfig)
                (map_to_list (servers s.1)).*1 s) as Hremoval.
  cbn zeta in Hremoval.
  destruct (foldl _ s _) as [m1 w1]. cbn [fst snd] in *.
  destruct Hremoval as (_ & Hsize & _ & _ & Hcfg).
  destruct (alloc_cell w1) as [p w2] eqn:Halloc.
  apply (second_loop_size p _ _ (m1, w2)); simpl.
  - exact (proj1 (alloc_cell_valid _ _ _ Halloc)).
  - rewrite Hcfg. lia.
  - lia.
Qed.

End DiffBounds.

Section DiffUnchanged.

Variable launch : nat → StartOutcome.

Lemma stopServer_trace_other (k name : string) (s : State) :
  k ≠ name →
  ∃ added, trace (stopServer k s).2 = trace s.2 ++ added
           ∧ Forall (λ a, touches name a = false) added.
Proof.
  intros Hk. destruct s as [m w]. unfold stopServer.
  destruct (servers m !! k) as [server |].
  - eexists. split; [reflexivity |]. apply Forall_singleton. simpl.
    by apply String.eqb_neq.
  - exists []. split; [by rewrite app_nil_r | done].
Qed.

Lemma startServer_trace_other (p : loc) (m : Manager) (w : World) (name : string) :
  config.Name (deref w p) ≠ name →
  ∃ added, trace (startServer launch p (m, w)).2 = trace w ++ added
           ∧ Forall (λ a, touches name a = false) added.
Proof.
  intros Hname. apply String.eqb_neq in Hname. unfold startServer.
  destruct (launch (spawns w)); simpl;
    try (eexists; split; [reflexivity | by repeat constructor]).
  - exists []. by rewrite app_nil_r.
  - eexists. split; [by rewrite <- app_assoc |]. by repeat constructor.
Qed.

Lemma trace_extends_trans (name : string) (t0 t1 t2 added1 : list Action) :
  t1 = t0 ++ added1 → Forall (λ a, touches name a = false) added1 →
  (∃ added2, t2 = t1 ++ added2 ∧ Forall (λ a, touches name a = false) added2) →
  ∃ added, t2 = t0 ++ added ∧ Forall (λ a, touches name a = false) added.
Proof.
  intros -> Hadded1 (added2 & -> & Hadded2). exists (added1 ++ added2).
  split; [by rewrite app_assoc | by apply Forall_app].
Qed.

(** An iteration for a spec of another name does not start or stop the
    instance of [name]. *)
Lemma reconcileOne_trace_other (p : loc) (m : Manager) (w : World)
    (c : config.MinecraftServerConfig) (name : string) :
  (p < length (cells w))%nat →
  config.Name c ≠ name →
  ∃ added, trace (reconcileOne launch p (m, w) c).2 = trace w ++ added
           ∧ Forall (λ a, touches name a = false) added.
Proof.
  intros Hp Hname. unfold reconcileOne.
  pose proof (deref_stored p c w Hp) as Hderef.
  destruct (_ <=? _).
  { eexists. split; [reflexivity |]. by apply Forall_singleton. }
  destruct (servers m !! config.Name c) as [existing |] eqn:Hlookup.
  - destruct (serverConfigChanged _ _).
    + unfold stopServer. rewrite Hlookup.
      set (w1 := emit [AStop (config.Name c) (Process existing)] (store_cell p c w)).
      destruct (startServer_trace_other p (set_servers (delete (config.Name c)) m) w1 name)
        as (added & Htrace & Hadded); [unfold w1; by rewrite deref_emit, Hderef |].
      exists (AStop (config.Name c) (Process existing) :: added).
      split; [rewrite Htrace; unfold w1; simpl; by rewrite <- app_assoc |].
      apply Forall_cons. split; [simpl; by apply String.eqb_neq | done].
    + exists []. split; [by rewrite app_nil_r | done].
  - destruct (startServer_trace_other p m (store_cell p c w) name)
      as (added & Htrace & Hadded); [by rewrite Hderef |].
    by exists added.
Qed.

(** An iteration for a spec that is tracked and not changed leaves the
    manager alone, and at most reports the cap. *)
Lemma reconcileOne_unchanged (p : loc) (m : Manager) (w : World)
    (c : config.MinecraftServerConfig) (server : MinecraftServer) :
  (p < length (cells w))%nat →
  Config server ≠ p →
  servers m !! config.Name c = Some server →
  serverConfigChanged (deref w (Config server)) c = false →
  (reconcileOne launch p (m, w) c).1 = m
  ∧ ∃ added, trace (reconcileOne launch p (m, w) c).2 = trace w ++ added
             ∧ Forall (λ a, touches (config.Name c) a = false) added.
Proof.
  intros Hp Hptr Hlookup Hsame. unfold reconcileOne.
  rewrite Hlookup, (deref_stored p c w Hp), (deref_stored_other p _ c w Hptr), Hsame.
  destruct (_ <=? _); (split; [done |]).
  - eexists. split; [reflexivity |]. by apply Forall_singleton.
  - exists []. split; [by rewrite app_nil_r | done].
Qed.

Lemma second_loop_keeps (p : loc) (name : string) (server : MinecraftServer)
    (specs : list config.MinecraftServerConfig) :
  Config server ≠ p →
  ∀ (s : State),
    (p < length (cells s.2))%nat →
    servers s.1 !! name = Some server →
    (∀ c, c ∈ specs → config.Name c = name →
       serverConfigChanged (deref s.2 (Config server)) c = false) →
    servers (foldl (reconcileOne launch p) s specs).1 !! name = Some server
    ∧ ∃ added, trace (foldl (reconcileOne launch p) s specs).2 = trace s.2 ++ added
               ∧ Forall (λ a, touches name a = false) added.
Proof.
  intros Hptr. induction specs as [| c specs IH]; intros [m w] Hp Hlookup Hsame.
  { split; [done |]. exists []. split; [by rewrite app_nil_r | done]. }
  cbn [foldl fst snd] in *.
  destruct (reconcileOne_frame launch p m w c Hp) as (Hcells & _ & Hother).
  assert (servers (reconcileOne launch p (m, w) c).1 !! name = Some server
          ∧ ∃ added, trace (reconcileOne launch p (m, w) c).2 = trace w ++ added
                     ∧ Forall (λ a, touches name a = false) added)
    as [Hlookup1 (added1 & Htrace1 & Hadded1)].
  { destruct (decide (config.Name c = name)) as [<- | Hne].
    - destruct (reconcileOne_unchanged p m w c server Hp Hptr Hlookup) as [-> Htrace];
        [apply Hsame; [by left | done] | done].
    - split; [by rewrite Hother | by apply reconcileOne_trace_other]. }
  destruct (reconcileOne launch p (m, w) c) as [m1 w1]. cbn [fst snd] in *.
  destruct (IH (m1, w1)) as [Hlookup2 Htrace2]; cbn [fst snd].
  - rewrite Hcells, length_insert. lia.
  - done.
  - intros c' Hc' Hname. unfold deref. rewrite Hcells.
    rewrite list_lookup_insert_ne by done. apply Hsame; [by right | done].
  - split; [done |]. by eapply trace_extends_trans.
Qed.

Lemma removal_loop_trace (names keys : list string) (name : string) :
  name ∈ names →
  ∀ (s : State),
    ∃ added,
      trace (foldl (λ s k, if bool_decide (k ∈ names) then s else stopServer k s)
               s keys).2
      = trace s.2 ++ added
      ∧ Forall (λ a, touches name a = false) added.
Proof.
  intros Hname. induction keys as [| key keys IH]; intros s.
  { exists []. split; [by rewrite app_nil_r | done]. }
  cbn [foldl]. case_bool_decide as Hkey; [apply IH |].
  destruct (stopServer_trace_other key name s) as (added1 & Htrace1 & Hadded1);
    [by intros -> |].
  by eapply trace_extends_trans.
Qed.

(** X3. A tracked instance whose name is desired, and whose stored
    configuration agrees in port, version and world name with every
    desired spec of that name, comes out of [updateServers] as it went
    in (the same record, with its handle and its status, whatever that
    is), and the tick neither stops nor starts it. *)
Theorem updateServers_keeps_unchanged (repoConfig : config.RepoConfig) (m : Manager)
    (w : World) (name : string) (server : MinecraftServer) :
  servers m !! name = Some server →
  (Config server < length (cells w))%nat →
  name ∈ config.Name <$> config.Servers repoConfig →
  (∀ c, c ∈ config.Servers repoConfig → config.Name c = name →
     serverConfigChanged (deref w (Config server)) c = false) →
  servers (updateServers launch repoConfig (m, w)).1 !! name = Some server
  ∧ ∃ added,
      trace (updateServers launch repoConfig (m, w)).2 = trace w ++ added
      ∧ Forall (λ a, touches name a = false) added.
Proof.
  intros Hlookup Hptr Hname Hsame. unfold updateServers.
  pose proof (removal_loop (config.Name <$> config.Servers repoConfig)
                (map_to_list (servers (m, w).1)).*1 (m, w)) as Hremoval.
  destruct (removal_loop_trace (config.Name <$> config.Servers repoConfig)
              (map_to_list (servers (m, w).1)).*1 name Hname (m, w))
    as (added1 & Htrace1 & Hadded1).
  cbn zeta in Hremoval.
  match type of Htrace1 with
  | context [foldl ?f ?a ?l] => set (s1 := foldl f a l) in *
  end.
  destruct s1 as [m1 w1]. cbn [fst snd] in *.
  destruct Hremoval as (Hkept & _ & Hcells & _ & _).
  destruct (alloc_cell w1) as [p w2] eqn:Halloc.
  destruct (alloc_cell_valid _ _ _ Halloc) as (Hp & -> & Hcells2 & _ & Htrace2).
  destruct (second_loop_keeps (length (cells w1)) name server
              (config.Servers repoConfig)) with (s := (m1, w2))
    as [Hlookup2 Htrace3]; cbn [fst snd].
  - rewrite Hcells. lia.
  - done.
  - by rewrite Hkept.
  - intros c Hc Hcname. unfold deref. rewrite Hcells2, Hcells.
    rewrite lookup_app_l by done. by apply Hsame.
  - split; [done |]. cbn [fst snd] in Htrace3. rewrite Htrace2 in Htrace3.
    exact (trace_extends_trans name _ _ _ added1 Htrace1 Hadded1 Htrace3).
Qed.

End DiffUnchanged.

Section DiffAdmission.

Variable launch : nat → StartOutcome.

(** The iteration for a tracked spec that changed, with room under the
    maximum: the old process is stopped, then [startServer] runs. *)
Lemma reconcileOne_restart (p : loc) (m : Manager) (w : World)
    (c : config.MinecraftServerConfig) (server : MinecraftServer) :
  (p < length (cells w))%nat →
  Config server ≠ p →
  servers m !! config.Name c = Some server →
  serverConfigChanged (deref w (Config server)) c = true →
  Z.of_nat (size (servers m)) < config.MaxInstances (config.Server (mconfig m)) →
  reconcileOne launch p (m, w) c
  = startServer launch p
      (set_servers (delete (config.Name c)) m,
       emit [AStop (config.Name c) (Process server)] (store_cell p c w)).
Proof.
  intros Hp Hptr Hlookup Hchanged Hroom. unfold reconcileOne.
  assert ((config.MaxInstances (config.Server (mconfig m)) <=? Z.of_nat (size (servers m)))
          = false) as -> by (apply Z.leb_gt; lia).
  rewrite Hlookup, (deref_stored p c w Hp), (deref_stored_other p _ c w Hptr), Hchanged.
  unfold stopServer. by rewrite Hlookup.
Qed.

Lemma startServer_trace_extends (p : loc) (m : Manager) (w : World) :
  ∃ added, trace (startServer launch p (m, w)).2 = trace w ++ added.
Proof.
  unfold startServer. destruct (launch (spawns w)); simpl;
    try (eexists; reflexivity).
  - exists []. by rewrite app_nil_r.
  - eexists. by rewrite <- app_assoc.
Qed.

Lemma reconcileOne_trace_extends (p : loc) (m : Manager) (w : World)
    (c : config.MinecraftServerConfig) :
  ∃ added, trace (reconcileOne launch p (m, w) c).2 = trace w ++ added.
Proof.
  unfold reconcileOne. destruct (_ <=? _); [by eexists |].
  destruct (servers m !! config.Name c) as [existing |] eqn:Hlookup.
  - destruct (serverConfigChanged _ _); [| exists []; by rewrite app_nil_r].
    unfold stopServer. rewrite Hlookup.
    match goal with
    | |- context [startServer launch p (?m1, ?w1)] =>
        destruct (startServer_trace_extends p m1 w1) as [added ->]
    end.
    eexists. simpl. by rewrite <- app_assoc.
  - destruct (startServer_trace_extends p m (store_cell p c w)) as [added ->].
    by eexists.
Qed.

Lemma second_loop_trace_extends (p : loc) (specs : list config.MinecraftServerConfig) :
  ∀ (s : State),
    ∃ added, trace (foldl (reconcileOne launch p) s specs).2 = trace s.2 ++ added.
Proof.
  induction specs as [| c specs IH]; intros [m w].
  { exists []. by rewrite app_nil_r. }
  cbn [foldl]. destruct (reconcileOne_trace_extends p m w c) as [added1 Htrace1].
  destruct (reconcileOne launch p (m, w) c) as [m1 w1].
  destruct (IH (m1, w1)) as [added2 ->]. cbn [fst snd] in *.
  rewrite Htrace1. eexists. by rewrite <- app_assoc.
Qed.

(** X4. A restart is a stop followed by a start, and the start can
    fail. When a tracked spec has changed, there is room under the
    maximum, and the launch of the replacement fails, [updateServers]
    returns with the old process stopped and no entry under the name. *)
Theorem failed_restart_loses_instance (m : Manager) (w : World)
    (server : MinecraftServer) (c : config.MinecraftServerConfig)
    (rest : list config.MinecraftServerConfig) :
  servers m !! config.Name c = Some server →
  (Config server < length (cells w))%nat →
  serverConfigChanged (deref w (Config server)) c = true →
  Z.of_nat (size (servers m)) < config.MaxInstances (config.Server (mconfig m)) →
  launch (spawns w) ≠ Launched →
  config.Name c ∉ config.Name <$> rest →
  let s' := updateServers launch {| config.Servers := c :: rest |} (m, w) in
  servers s'.1 !! config.Name c = None
  ∧ AStop (config.Name c) (Process server) ∈ trace s'.2.
Proof.
  intros Hlookup Hptr Hchanged Hroom Hlaunch Hrest s'. subst s'.
  unfold updateServers. cbn [config.Servers].
  pose proof (removal_loop (config.Name <$> c :: rest)
                (map_to_list (servers (m, w).1)).*1 (m, w)) as Hremoval.
  cbn zeta in Hremoval.
  match type of Hremoval with
  | context [foldl ?f ?a ?l] => set (s1 := foldl f a l) in *
  end.
  destruct s1 as [m1 w1]. cbn [fst snd] in *.
  destruct Hremoval as (Hkept & Hsize & Hcells & Hspawns & Hcfg).
  destruct (alloc_cell w1) as [p w2] eqn:Halloc.
  destruct (alloc_cell_valid _ _ _ Halloc) as (Hp & -> & Hcells2 & Hspawns2 & Htrace2).
  cbn [foldl].
  rewrite (reconcileOne_restart _ m1 w2 c server); cycle 1.
  { done. }
  { rewrite Hcells. lia. }
  { rewrite Hkept; [done | by left]. }
  { unfold deref. rewrite Hcells2, Hcells, lookup_app_l by done. done. }
  { rewrite Hcfg. lia. }
  set (m2 := set_servers (delete (config.Name c)) m1).
  set (w3 := emit [AStop (config.Name c) (Process server)]
               (store_cell (length (cells w1)) c w2)).
  assert (spawns w3 = spawns w) as Hspawns3 by (unfold w3; simpl; congruence).
  destruct (startServer_cases launch (length (cells w1)) m2 w3) as [Hfail | [Hok _]];
    [| by rewrite Hspawns3 in Hok].
  destruct (startServer_world launch (length (cells w1)) m2 w3) as [Hcells4 _].
  destruct (startServer_trace_extends (length (cells w1)) m2 w3) as [added4 Htrace4].
  destruct (startServer launch (length (cells w1)) (m2, w3)) as [m4 w4].
  cbn [fst snd] in *. subst m4.
  destruct (second_loop_frame launch (length (cells w1)) rest (m2, w4))
    as (_ & _ & _ & Hother).
  { cbn [fst snd]. rewrite Hcells4. unfold w3. simpl. rewrite length_insert. lia. }
  destruct (second_loop_trace_extends (length (cells w1)) rest (m2, w4)) as [added5 Htrace5].
  cbn [fst snd] in *. split.
  - rewrite Hother by done. unfold m2. simpl. apply lookup_delete_eq.
  - rewrite Htrace5, Htrace4. unfold w3. simpl.
    rewrite !elem_of_app, list_elem_of_singleton. auto.
Qed.

End DiffAdmission.

Section DiffOrder.

Variable launch : nat → StartOutcome.
Hypothesis launch_ok : ∀ n, launch n = Launched.

Lemma cap_test (maxInstances : Z) (n : nat) :
  (maxInstances <=? Z.of_nat n) = true ↔ (Z.to_nat maxInstances ≤ n)%nat.
Proof. rewrite Z.leb_le. lia. Qed.

(** The second loop on a fleet that holds the first specs admitted so
    far: it goes on admitting in list order until the maximum is reached. *)
Lemma second_loop_admits (p : loc) (specs : list config.MinecraftServerConfig) :
  ∀ (admitted : list string) (s : State),
    (p < length (cells s.2))%nat →
    NoDup (admitted ++ (config.Name <$> specs)) →
    dom (servers s.1)
    = list_to_set (take (Z.to_nat (config.MaxInstances (config.Server (mconfig s.1))))
                     admitted) →
    dom (servers (foldl (reconcileOne launch p) s specs).1)
    = list_to_set (take (Z.to_nat (config.MaxInstances (config.Server (mconfig s.1))))
                     (admitted ++ (config.Name <$> specs))).
Proof.
  induction specs as [| c specs IH]; intros admitted [m w] Hp Hnodup Hdom.
  { cbn [foldl fmap list_fmap]. by rewrite app_nil_r. }
  cbn [foldl fst snd] in *. rewrite fmap_cons in *.
  rewrite (cons_middle (config.Name c)), app_assoc in Hnodup |- *.
  set (M := Z.to_nat (config.MaxInstances (config.Server (mconfig m)))) in *.
  destruct (reconcileOne_frame launch p m w c Hp) as (Hcells & (Hcfg & _) & _).
  assert (dom (servers (reconcileOne launch p (m, w) c).1)
          = list_to_set (take M (admitted ++ [config.Name c]))) as Hdom1.
  { apply NoDup_app in Hnodup as (Hnodup & _ & _).
    apply NoDup_app in Hnodup as (Hadmitted & Hfresh & _).
    assert (size (servers m) = length (take M admitted)) as Hsize.
    { rewrite <- (size_dom (D := gset string)), Hdom.
      apply size_list_to_set. eapply sublist_NoDup; [exact Hadmitted | apply sublist_take]. }
    unfold reconcileOne.
    destruct (_ <=? _) eqn:Hcap.
    - apply cap_test in Hcap. fold M in Hcap. rewrite Hsize, length_take in Hcap.
      simpl. rewrite Hdom. by rewrite take_app_le by lia.
    - assert (¬ (M ≤ size (servers m))%nat) as Hroom.
      { intros Hle. apply cap_test in Hle. fold M in Hle. unfold M in Hle.
        by rewrite Hle in Hcap. }
      rewrite Hsize, length_take in Hroom.
      rewrite take_ge in Hdom by lia.
      assert (servers m !! config.Name c = None) as ->.
      { apply (not_elem_of_dom (D := gset string)). rewrite Hdom.
        rewrite elem_of_list_to_set. intros Hin. apply (Hfresh _ Hin). by left. }
      unfold startServer. rewrite launch_ok, (deref_stored p c w Hp). simpl.
      rewrite dom_insert_L, Hdom.
      rewrite take_ge by (rewrite length_app; simpl; lia).
      rewrite list_to_set_snoc_L. apply (comm_L (∪)). }
  destruct (reconcileOne launch p (m, w) c) as [m1 w1]. cbn [fst snd] in *.
  subst M. rewrite <- Hcfg in Hdom1 |- *. apply IH; cbn [fst snd].
  - rewrite Hcells, length_insert. lia.
  - done.
  - done.
Qed.

(** X5. Earlier entries win. From an empty fleet, for a desired state
    with distinct names and launches that succeed, the names tracked
    after [updateServers] are those of the first [MaxInstances] specs of
    the list (none when the maximum is not positive). *)
Theorem updateServers_admits_in_order (repoConfig : config.RepoConfig) (m : Manager)
    (w : World) :
  servers m = ∅ →
  NoDup (config.Name <$> config.Servers repoConfig) →
  dom (servers (updateServers launch repoConfig (m, w)).1)
  = list_to_set (take (Z.to_nat (config.MaxInstances (config.Server (mconfig m))))
                   (config.Name <$> config.Servers repoConfig)).
Proof.
  intros Hempty Hnodup. unfold updateServers. cbn [fst snd].
  rewrite Hempty, map_to_list_empty. cbn [fmap list_fmap foldl fst snd].
  destruct (alloc_cell w) as [p w2] eqn:Halloc.
  apply (second_loop_admits p (config.Servers repoConfig) [] (m, w2)); cbn [fst snd].
  - exact (proj1 (alloc_cell_valid _ _ _ Halloc)).
  - done.
  - rewrite Hempty, dom_empty_L. by rewrite take_nil.
Qed.

End DiffOrder.

Section DiffAliasing.

Variable launch : nat → StartOutcome.

Lemma reconcileOne_entries (p : loc) (m : Manager) (w : World)
    (c : config.MinecraftServerConfig) (name : string) (server : MinecraftServer) :
  servers (reconcileOne launch p (m, w) c).1 !! name = Some server →
  servers m !! name = Some server ∨ Config server = p.
Proof.
  unfold reconcileOne. destruct (_ <=? _); [by left |].
  assert (∀ m1 w1, servers m1 ⊆ servers m →
            servers (startServer launch p (m1, w1)).1 !! name = Some server →
            servers m !! name = Some server ∨ Config server = p) as Hstart.
  { intros m1 w1 Hsub.
    destruct (startServer_cases launch p m1 w1) as [-> | [_ ->]].
    - intros Hlookup. left. by eapply lookup_weaken.
    - simpl. rewrite lookup_insert. case_decide.
      + intros [= <-]. by right.
      + intros Hlookup. left. by eapply lookup_weaken. }
  destruct (servers m !! config.Name c) as [existing |] eqn:Hlookup.
  - destruct (serverConfigChanged _ _); [| by left].
    unfold stopServer. rewrite Hlookup. apply Hstart. simpl. apply delete_subseteq.
  - by apply Hstart.
Qed.

Lemma second_loop_entries (p : loc) (specs : list config.MinecraftServerConfig)
    (name : string) (server : MinecraftServer) :
  ∀ (s : State),
    servers (foldl (reconcileOne launch p) s specs).1 !! name = Some server →
    servers s.1 !! name = Some server ∨ Config server = p.
Proof.
  induction specs as [| c specs IH]; intros [m w] Hlookup; [by left |].
  cbn [foldl] in Hlookup. apply IH in Hlookup as [Hlookup | ?]; [| by right].
  pose proof (reconcileOne_entries p m w c name server) as Hstep.
  destruct (reconcileOne launch p (m, w) c) as [m1 w1]. by apply Hstep.
Qed.

(** After the second loop the range variable holds the last spec. *)
Lemma second_loop_cell (p : loc) (specs : list config.MinecraftServerConfig) :
  ∀ (s : State),
    (p < length (cells s.2))%nat →
    cells (foldl (reconcileOne launch p) s specs).2 !! p
    = match last specs with Some c => Some c | None => cells s.2 !! p end.
Proof.
  induction specs as [| c specs IH]; intros [m w] Hp; [done |].
  cbn [foldl fst snd] in *.
  destruct (reconcileOne_frame launch p m w c Hp) as (Hcells & _ & _).
  destruct (reconcileOne launch p (m, w) c) as [m1 w1]. cbn [fst snd] in *.
  rewrite IH by (cbn [snd]; rewrite Hcells, length_insert; lia).
  cbn [snd]. rewrite last_cons. destruct (last specs); [done |].
  rewrite Hcells. by apply list_lookup_insert_eq.
Qed.

(** X6. One variable for the whole loop. [updateServers] allocates a
    single cell for its range variable; every entry that it adds or
    replaces has that cell as its [Config], whatever spec the entry was
    started from, and when the function returns the cell holds the last
    spec of the desired state. Entries it did not start are as before. *)
Theorem updateServers_shares_range_variable (repoConfig : config.RepoConfig)
    (m : Manager) (w : World) :
  cells (updateServers launch repoConfig (m, w)).2
  = cells w ++ [default config.zero (last (config.Servers repoConfig))]
  ∧ ∀ name server,
      servers (updateServers launch repoConfig (m, w)).1 !! name = Some server →
      servers m !! name = Some server ∨ Config server = length (cells w).
Proof.
  unfold updateServers.
  pose proof (removal_loop (config.Name <$> config.Servers repoConfig)
                (map_to_list (servers (m, w).1)).*1 (m, w)) as Hremoval.
  pose proof (removal_loop_drops (config.Name <$> config.Servers repoConfig)
                (map_to_list (servers (m, w).1)).*1 (m, w)) as Hdrops.
  cbn zeta in Hremoval, Hdrops.
  match type of Hremoval with
  | context [foldl ?f ?a ?l] => set (s1 := foldl f a l) in *
  end.
  destruct s1 as [m1 w1]. cbn [fst snd] in *.
  destruct Hremoval as (_ & _ & Hcells & _ & _).
  destruct (alloc_cell w1) as [p w2] eqn:Halloc.
  destruct (alloc_cell_valid _ _ _ Halloc) as (Hp & -> & Hcells2 & _ & _).
  rewrite Hcells in *.
  destruct (second_loop_frame launch (length (cells w)) (config.Servers repoConfig) (m1, w2))
    as (Hlen & Hframe & _ & _); [done |].
  pose proof (second_loop_cell (length (cells w)) (config.Servers repoConfig) (m1, w2) Hp)
    as Hcell.
  cbn [fst snd] in *. split.
  - apply list_eq. intros i.
    destruct (decide (i = length (cells w))) as [-> | Hne].
    + etrans; [exact Hcell |]. rewrite Hcells2. rewrite !lookup_app_r by lia.
      rewrite Nat.sub_diag. by destruct (last (config.Servers repoConfig)).
    + etrans; [exact (Hframe i Hne) |]. rewrite Hcells2.
      destruct (decide (i < length (cells w))%nat).
      * by rewrite !lookup_app_l by lia.
      * rewrite !lookup_ge_None_2; [done | |]; rewrite length_app; simpl; lia.
  - intros name server Hlookup.
    apply second_loop_entries in Hlookup as [Hlookup | ?]; [| by right].
    left. cbn [fst] in Hlookup.
    destruct (Hdrops name) as [Hnone | [Heq _]]; congruence.
Qed.

End DiffAliasing.

(** ** Exit reports and restarts *)
Section WaiterRestart.

Variable launch : nat → StartOutcome.

Lemma serverConfigChanged_same (c : config.MinecraftServerConfig) :
  serverConfigChanged c c = false.
Proof. unfold serverConfigChanged. by rewrite Z.eqb_refl, !String.eqb_refl. Qed.

Lemma size_le_names (fleet : gmap string MinecraftServer) (names : list string) :
  (∀ k, is_Some (fleet !! k) → k ∈ names) → (size fleet ≤ length names)%nat.
Proof.
  intros Hkeys. rewrite <- length_map_to_list, <- (length_fmap fst).
  apply submseteq_length, NoDup_submseteq; [apply NoDup_fst_map_to_list |].
  intros k [server Hk]%list_elem_of_fmap. destruct Hk as [-> Hk].
  apply Hkeys. exists server.2. apply elem_of_map_to_list. by destruct server.
Qed.

Lemma startServer_launched (p : loc) (m : Manager) (w : World) :
  launch (spawns w) = Launched →
  startServer launch p (m, w)
  = (set_servers
       (insert (config.Name (deref w p))
          {| Config := p; Process := Some (spawns w); Status := "starting";
             Port := config.Port (deref w p); MaxLogs := 100 |}) m,
     emit [AStart (config.Name (deref w p)) (spawns w) (config.Port (deref w p))]
       (emit [AReclaim (int_sub (int_add 20000 (config.Port (deref w p))) 19132);
              AReclaim 19133]
          (next_spawn w))).
Proof. intros Hlaunch. unfold startServer. by rewrite Hlaunch. Qed.

Lemma reconcileOne_spawns (p : loc) (m : Manager) (w : World)
    (c : config.MinecraftServerConfig) :
  (spawns w ≤ spawns (reconcileOne launch p (m, w) c).2)%nat.
Proof.
  unfold reconcileOne. destruct (_ <=? _); [done |].
  destruct (servers m !! config.Name c) as [existing |] eqn:Hlookup.
  - destruct (serverConfigChanged _ _); [| done].
    unfold stopServer. rewrite Hlookup.
    match goal with
    | |- context [startServer launch p (?m1, ?w1)] =>
        destruct (startServer_world launch p m1 w1) as [_ ->]
    end.
    simpl. lia.
  - destruct (startServer_world launch p m (store_cell p c w)) as [_ ->]. simpl. lia.
Qed.

(** Once an entry points to the range variable, no later iteration of the
    loop touches it: a spec of its name is compared with itself. *)
Lemma reconcileOne_after_restart (p : loc) (m : Manager) (w : World)
    (c : config.MinecraftServerConfig) (name : string) (restarted : MinecraftServer) :
  (p < length (cells w))%nat →
  servers m !! name = Some restarted →
  Config restarted = p →
  servers (reconcileOne launch p (m, w) c).1 !! name = Some restarted.
Proof.
  intros Hp Hlookup Hcfg.
  destruct (decide (config.Name c = name)) as [<- | Hne].
  - unfold reconcileOne. destruct (_ <=? _); [done |].
    rewrite Hlookup, Hcfg, (deref_stored p c w Hp).
    by rewrite serverConfigChanged_same.
  - destruct (reconcileOne_frame launch p m w c Hp) as (_ & _ & Hother).
    by rewrite Hother.
Qed.

Lemma second_loop_after_restart (p : loc) (name : string) (restarted : MinecraftServer)
    (specs : list config.MinecraftServerConfig) :
  Config restarted = p →
  ∀ (s : State),
    (p < length (cells s.2))%nat →
    servers s.1 !! name = Some restarted →
    servers (foldl (reconcileOne launch p) s specs).1 !! name = Some restarted.
Proof.
  intros Hcfg. induction specs as [| c specs IH]; intros [m w] Hp Hlookup; [done |].
  cbn [foldl fst snd] in *.
  pose proof (reconcileOne_after_restart p m w c name restarted Hp Hlookup Hcfg) as Hstep.
  destruct (reconcileOne_frame launch p m w c Hp) as (Hcells & _ & _).
  destruct (reconcileOne launch p (m, w) c) as [m1 w1]. cbn [fst snd] in *.
  apply IH; cbn [fst snd]; [| done].
  rewrite Hcells, length_insert. lia.
Qed.

(** The second loop, entered with [name] tracked by [server] (whose
    process is [old]) and with fewer desired names than the maximum: when
    some spec of that name differs from the stored configuration, and
    every launch succeeds, the loop ends with a new process under the
    name, and [old] was stopped. *)
Lemma second_loop_restarts (p : loc) (name : string) (server : MinecraftServer)
    (old : Cmd) (names : list string) (stored : config.MinecraftServerConfig)
    (specs : list config.MinecraftServerConfig) :
  Config server ≠ p →
  Process server = Some old →
  (∀ n, launch n = Launched) →
  ∀ (s : State),
    (p < length (cells s.2))%nat →
    servers s.1 !! name = Some server →
    deref s.2 (Config server) = stored →
    (∀ k, is_Some (servers s.1 !! k) → k ∈ names) →
    (∀ c, c ∈ specs → config.Name c ∈ names) →
    Z.of_nat (length names) < config.MaxInstances (config.Server (mconfig s.1)) →
    (∃ c, c ∈ specs ∧ config.Name c = name ∧ serverConfigChanged stored c = true) →
    ∃ restarted new,
      servers (foldl (reconcileOne launch p) s specs).1 !! name = Some restarted
      ∧ Process restarted = Some new
      ∧ (spawns s.2 ≤ new)%nat
      ∧ Status restarted = "starting"
      ∧ AStop name (Some old) ∈ trace (foldl (reconcileOne launch p) s specs).2.
Proof.
  intros Hptr Hprocess Hlaunch.
  induction specs as [| c specs IH];
    intros [m w] Hp Hlookup Hstored Hkeys Hnames Hmax Hspec.
  { destruct Hspec as (c0 & Hc0 & _). by apply elem_of_nil in Hc0. }
  cbn [foldl fst snd] in *.
  destruct (reconcileOne_frame launch p m w c Hp) as (Hcells & (Hcfg & _) & Hother).
  pose proof (reconcileOne_spawns p m w c) as Hspawns.
  destruct (decide (config.Name c = name ∧ serverConfigChanged stored c = true))
    as [[Hname Hchanged] | Hnot].
  - (* the restart *)
    clear Hspec. subst name.
    assert (Z.of_nat (size (servers m)) < config.MaxInstances (config.Server (mconfig m)))
      as Hroom.
    { pose proof (size_le_names (servers m) names Hkeys). lia. }
    rewrite <- Hstored in Hchanged.
    pose proof (reconcileOne_restart launch p m w c server Hp Hptr Hlookup Hchanged Hroom)
      as Hstep.
    rewrite startServer_launched in Hstep by apply Hlaunch.
    rewrite deref_emit, (deref_stored p c w Hp) in Hstep.
    cbn [spawns emit store_cell] in Hstep. rewrite Hprocess in Hstep.
    set (restarted := {| Config := p; Process := Some (spawns w); Status := "starting";
                         Port := config.Port c; MaxLogs := 100 |}) in *.
    destruct (reconcileOne launch p (m, w) c) as [m1 w1]. cbn [fst snd] in *.
    injection Hstep as -> ->.
    exists restarted, (spawns w).
    split; [| split; [done | split; [done | split; [done |]]]].
    + apply second_loop_after_restart; [done | | apply lookup_insert_eq].
      cbn [fst snd cells emit next_spawn store_cell]. rewrite length_insert. lia.
    + match goal with
      | |- context [foldl ?f (?m1, ?w1) specs] =>
          destruct (second_loop_trace_extends launch p specs (m1, w1)) as [added ->]
      end.
      cbn [snd trace emit next_spawn store_cell].
      rewrite !elem_of_app. left. left. left. right. by left.
  - (* another name, or a spec of the name that has not changed *)
    assert (servers (reconcileOne launch p (m, w) c).1 !! name = Some server) as Hlookup1.
    { destruct (decide (config.Name c = name)) as [Hname | Hne]; [| by rewrite Hother].
      subst name.
      destruct (reconcileOne_unchanged launch p m w c server Hp Hptr Hlookup) as [-> _];
        [| done].
      rewrite Hstored. destruct (serverConfigChanged stored c); [| done].
      by destruct Hnot. }
    assert (∀ k, is_Some (servers (reconcileOne launch p (m, w) c).1 !! k) → k ∈ names)
      as Hkeys1.
    { intros k Hk. destruct (decide (k = config.Name c)) as [-> | Hne].
      - apply Hnames. by left.
      - apply Hkeys. by rewrite <- Hother. }
    destruct (reconcileOne launch p (m, w) c) as [m1 w1]. cbn [fst snd] in *.
    destruct (IH (m1, w1)) as (restarted & new & Hrestarted & Hnew & Hfresh & Hstatus & Hstop);
      cbn [fst snd].
    + rewrite Hcells, length_insert. lia.
    + done.
    + unfold deref. rewrite Hcells, list_lookup_insert_ne by done. exact Hstored.
    + done.
    + intros c' Hc'. apply Hnames. by right.
    + by rewrite Hcfg.
    + destruct Hspec as (c0 & Hc0 & Hc0_name & Hc0_changed).
      exists c0. split; [| done].
      apply elem_of_cons in Hc0 as [Heq | Hc0]; [| done].
      subst c0. exfalso. apply Hnot. by split.
    + exists restarted, new.
      split; [done |]. split; [done |]. split; [| done].
      cbn [fst snd] in Hfresh. lia.
Qed.

(** The exit report of any command lands on the entry that the name maps
    to, whatever process that entry holds: only its status changes, to
    "crashed" for an error and to "stopped" for none. *)
Lemma monitorServer_writes_by_name (name : string) (cmd : Cmd) (err : option error)
    (m : Manager) (entry : MinecraftServer) :
  servers m !! name = Some entry →
  servers (monitorServer name cmd err m)
  = <[name := {| Config := Config entry; Process := Process entry;
                 Status := match err with Some _ => "crashed" | None => "stopped" end;
                 Port := Port entry; MaxLogs := MaxLogs entry |}]> (servers m).
Proof. intros Hlookup. unfold monitorServer. by rewrite Hlookup. Qed.

(** C10. The waiter reports by name. [monitorServer] never looks at the
    command it waited for: it writes the status into whatever entry the
    name maps to. Let a tick find the name tracked with the process
    [old], and the desired state ask for a change of that spec (with
    fewer specs than the maximum and launches that succeed): the tick
    stops [old] and starts a new process under the name. When a waiter
    then reports under that name, whatever command it waited for and so
    also the waiter of [old], the entry of the new process, which is not
    [old] and was "starting", takes the status of the exit: "crashed" for
    an error, "stopped" for none. *)
Theorem exit_report_lands_on_restarted_instance (m : Manager) (w : World)
    (server : MinecraftServer) (old : Cmd) (repoConfig : config.RepoConfig)
    (c : config.MinecraftServerConfig) (err : option error) :
  servers m !! config.Name c = Some server →
  Process server = Some old →
  (old < spawns w)%nat →
  (Config server < length (cells w))%nat →
  c ∈ config.Servers repoConfig →
  serverConfigChanged (deref w (Config server)) c = true →
  Z.of_nat (length (config.Servers repoConfig))
    < config.MaxInstances (config.Server (mconfig m)) →
  (∀ n, launch n = Launched) →
  let s' := updateServers launch repoConfig (m, w) in
  ∃ restarted new,
    servers s'.1 !! config.Name c = Some restarted
    ∧ Process restarted = Some new
    ∧ new ≠ old
    ∧ Status restarted = "starting"
    ∧ AStop (config.Name c) (Some old) ∈ trace s'.2
    ∧ ∀ cmd,
        servers (monitorServer (config.Name c) cmd err s'.1) !! config.Name c
        = Some {| Config := Config restarted; Process := Some new;
                  Status := match err with Some _ => "crashed" | None => "stopped" end;
                  Port := Port restarted; MaxLogs := MaxLogs restarted |}.
Proof.
  intros Hlookup Hprocess Hold Hptr Hc Hchanged Hmax Hlaunch s'. subst s'.
  unfold updateServers.
  set (names := config.Name <$> config.Servers repoConfig).
  pose proof (removal_loop names (map_to_list (servers (m, w).1)).*1 (m, w)) as Hremoval.
  pose proof (λ k, removal_loop_drops names (map_to_list (servers (m, w).1)).*1 (m, w) k)
    as Hdrops.
  cbn zeta in Hremoval, Hdrops.
  match type of Hremoval with
  | context [foldl ?f ?a ?l] => set (s1 := foldl f a l) in *
  end.
  destruct s1 as [m1 w1]. cbn [fst snd] in *.
  destruct Hremoval as (Hkept & _ & Hcells & Hspawns & Hcfg).
  destruct (alloc_cell w1) as [p w2] eqn:Halloc.
  destruct (alloc_cell_valid _ _ _ Halloc) as (Hp & -> & Hcells2 & Hspawns2 & _).
  assert (config.Name c ∈ names) as Hname.
  { apply list_elem_of_fmap. by exists c. }
  destruct (second_loop_restarts (length (cells w1)) (config.Name c) server old names
              (deref w (Config server)) (config.Servers repoConfig))
    with (s := (m1, w2))
    as (restarted & new & Hrestarted & Hnew & Hfresh & Hstatus & Hstop); cbn [fst snd].
  - rewrite Hcells. lia.
  - done.
  - done.
  - done.
  - by rewrite Hkept.
  - unfold deref. rewrite Hcells2, Hcells. by rewrite lookup_app_l.
  - intros k Hk. destruct (Hdrops k) as [Hnone | [Heq Hin]].
    + rewrite Hnone in Hk. by destruct Hk.
    + apply Hin. destruct Hk as [entry Hk]. rewrite Heq in Hk.
      apply list_elem_of_fmap. exists (k, entry). split; [done |].
      by apply elem_of_map_to_list.
  - intros c' Hc'. apply list_elem_of_fmap. by exists c'.
  - unfold names. rewrite length_fmap, Hcfg. exact Hmax.
  - by exists c.
  - exists restarted, new.
    split; [done |]. split; [done |].
    split; [cbn [fst snd] in Hfresh; lia |]. split; [done |]. split; [done |].
    intros cmd. rewrite (monitorServer_writes_by_name _ cmd err _ restarted Hrestarted).
    by rewrite lookup_insert_eq, Hnew.
Qed.

End WaiterRestart.

(** ** The reconciler: shutdown and repeated ticks *)

(** Stopping the keys of a list of entries that are all present, each
    once: each is reported with its handle, in order, and is gone. *)
Lemma stop_all_entries (entries : list (string * MinecraftServer)) :
  ∀ (s : State),
    NoDup entries.*1 →
    (∀ name server, (name, server) ∈ entries → servers s.1 !! name = Some server) →
    let s' := foldl (λ s name, stopServer name s) s entries.*1 in
    trace s'.2 = trace s.2 ++ ((λ entry, AStop entry.1 (Process entry.2)) <$> entries)
    ∧ (∀ name, servers s'.1 !! name
               = if decide (name ∈ entries.*1) then None else servers s.1 !! name)
    ∧ same_settings s.1 s'.1 ∧ cells s'.2 = cells s.2 ∧ spawns s'.2 = spawns s.2.
Proof.
  induction entries as [| [key server] entries IH]; intros [m w] Hnodup Hpresent.
  { cbn. rewrite app_nil_r. repeat split. }
  rewrite fmap_cons in *. cbn [fst foldl]. apply NoDup_cons in Hnodup as [Hfresh Hnodup].
  assert (stopServer key (m, w)
          = (set_servers (delete key) m, emit [AStop key (Process server)] w)) as ->.
  { unfold stopServer. cbn [fst] in Hpresent. by rewrite (Hpresent key server) by by left. }
  destruct (IH (set_servers (delete key) m, emit [AStop key (Process server)] w))
    as (Htrace & Hlookup & Hset & Hcells & Hspawns); [done | |].
  { intros name server' Hin. simpl. rewrite lookup_delete_ne.
    - apply Hpresent. by right.
    - intros <-. apply Hfresh. apply list_elem_of_fmap. by exists (key, server'). }
  cbn zeta. split; [| split; [| split; [| split]]].
  - rewrite Htrace. simpl. by rewrite <- app_assoc.
  - intros name. rewrite Hlookup. simpl.
    destruct (decide (name = key)) as [-> | Hne].
    + rewrite (decide_True (P := key ∈ key :: entries.*1)) by by left.
      case_decide; [done | apply lookup_delete_eq].
    + rewrite lookup_delete_ne by done.
      case_decide as Hin; case_decide as Hin'; try done.
      * exfalso. apply Hin'. by right.
      * apply elem_of_cons in Hin' as [? | ?]; done.
  - done.
  - by rewrite Hcells.
  - by rewrite Hspawns.
Qed.

Lemma stopAllServers_effect (s : State) :
  servers (stopAllServers s).1 = ∅
  ∧ trace (stopAllServers s).2
    = trace s.2 ++ ((λ entry, AStop entry.1 (Process entry.2))
                      <$> map_to_list (servers s.1))
  ∧ same_settings s.1 (stopAllServers s).1.
Proof.
  unfold stopAllServers.
  destruct (stop_all_entries (map_to_list (servers s.1)) s)
    as (Htrace & Hlookup & Hset & _).
  { apply NoDup_fst_map_to_list. }
  { intros name server Hin. by apply elem_of_map_to_list. }
  split; [| done]. apply map_empty. intros name. rewrite Hlookup.
  case_decide as Hin; [done |].
  destruct (servers s.1 !! name) as [server |] eqn:Hserver; [| done].
  exfalso. apply Hin. apply list_elem_of_fmap. exists (name, server).
  split; [done |]. by apply elem_of_map_to_list.
Qed.

(** X7. [stopAllServers] empties the fleet map, and reports exactly one
    stop, with its handle, for each entry that was tracked. *)
Theorem stopAllServers_stops_everything (s : State) :
  servers (stopAllServers s).1 = ∅
  ∧ trace (stopAllServers s).2
    = trace s.2 ++ ((λ entry, AStop entry.1 (Process entry.2))
                      <$> map_to_list (servers s.1)).
Proof.
  destruct (stopAllServers_effect s) as (Hempty & Htrace & _). by split.
Qed.

Section TickComposition.

Variable launch : nat → StartOutcome.

(** What a tick that fetched the fingerprint and was offered the
    document leaves as the stored fingerprint. *)
Lemma tick_stores_fingerprint (commitSHA : string) (repoConfig : config.RepoConfig)
    (s s' : State) :
  pollConfiguration launch (Ok commitSHA) (Ok repoConfig) s = Returns s' →
  lastCommitSHA s'.1 = commitSHA.
Proof.
  destruct s as [m w]. unfold pollConfiguration.
  destruct (_ && _).
  - pose proof (updateServers_settings launch repoConfig
                  (set_lastCommitSHA commitSHA m, emit [AGetConfig] w)) as (_ & _ & Hsha & _).
    destruct (updateServers launch repoConfig _) as [m1 w1].
    intros [= <-]. simpl in *. exact Hsha.
  - destruct (String.eqb commitSHA (lastCommitSHA m)) eqn:Heq.
    + intros [= <-]. symmetry. by apply String.eqb_eq.
    + destruct (_ <? _)%nat; [done |].
      destruct (updateServers launch repoConfig _) as [m1 w1].
      by intros [= <-].
Qed.

(** X8. Two ticks, one fingerprint. After a tick that fetched a
    non-empty fingerprint and the document and returned, a tick that
    meets the same fingerprint returns the state unchanged, in first-run
    mode or not, whatever the document fetch would give. *)
Theorem tick_twice_second_is_noop (commitSHA : string) (repoConfig : config.RepoConfig)
    (configResult : result config.RepoConfig) (s s' : State) :
  commitSHA ≠ "" →
  pollConfiguration launch (Ok commitSHA) (Ok repoConfig) s = Returns s' →
  pollConfiguration launch (Ok commitSHA) configResult s' = Returns s'.
Proof.
  intros Hsha Hfirst. apply tick_stores_fingerprint in Hfirst.
  destruct s' as [m' w']. simpl in Hfirst. unfold pollConfiguration.
  rewrite first_run_branch_off by (by rewrite Hfirst).
  by rewrite Hfirst, String.eqb_refl.
Qed.

End TickComposition.

(** ** The supervisor: one process per name *)
Section HandleProperties.

Variable launch : nat → StartOutcome.

Lemma lifecycle_handles_distinct (s s' : State) :
  lifecycle launch s s' → handles_distinct s → handles_distinct s'.
Proof.
  destruct 1 as [c m w | name [m w] | name cmd err m w]; intros [Hspawned Hdistinct].
  - set (p := (alloc_cell w).1). set (w1 := store_cell p c (alloc_cell w).2).
    assert (spawns w1 = spawns w) as Hspawns by done.
    destruct (startServer_world launch p m w1) as [_ Hspawns'].
    destruct (startServer_cases launch p m w1) as [Hsame | [_ Hnew]].
    + split.
      * intros name server n. rewrite Hsame, Hspawns', Hspawns. intros Hl Hp.
        specialize (Hspawned name server n Hl Hp). simpl in *. lia.
      * intros name1 name2 server1 server2 n. rewrite Hsame. apply Hdistinct.
    + rewrite Hspawns in Hnew. simpl in Hspawned, Hdistinct. split.
      * intros name server n. rewrite Hnew, Hspawns', Hspawns. simpl.
        rewrite lookup_insert. case_decide.
        -- intros [= <-] [= <-]. lia.
        -- intros Hl Hp. specialize (Hspawned name server n Hl Hp). lia.
      * intros name1 name2 server1 server2 n. rewrite Hnew. simpl.
        rewrite !lookup_insert. repeat case_decide; try congruence.
        -- intros [= <-] Hl2 [= <-] Hp2.
           specialize (Hspawned name2 server2 _ Hl2 Hp2). lia.
        -- intros Hl1 [= <-] Hp1 [= <-].
           specialize (Hspawned name1 server1 _ Hl1 Hp1). lia.
        -- apply Hdistinct.
  - pose proof (stopServer_servers name (m, w)) as Hservers.
    destruct (stopServer_world name (m, w)) as [_ Hspawns].
    simpl in *. split.
    + intros name' server n. rewrite Hservers, Hspawns.
      intros [_ Hl]%lookup_delete_Some. by apply (Hspawned name' server n).
    + intros name1 name2 server1 server2 n. rewrite Hservers.
      intros [_ Hl1]%lookup_delete_Some [_ Hl2]%lookup_delete_Some.
      by apply (Hdistinct name1 name2 server1 server2 n).
  - unfold monitorServer. simpl in *.
    destruct (servers m !! name) as [server |] eqn:Hlookup; [| done].
    assert (∀ name' server', <[name := set_status
                                (match err with Some _ => "crashed" | None => "stopped" end)
                                server]> (servers m) !! name' = Some server' →
              ∃ server0, servers m !! name' = Some server0
                         ∧ Process server0 = Process server') as Hback.
    { intros name' server'. rewrite lookup_insert. case_decide.
      - intros [= <-]. subst. by eexists.
      - intros Hl. by eexists. }
    split; simpl.
    + intros name' server' n Hl Hp. apply Hback in Hl as (server0 & Hl & Heq).
      apply (Hspawned name' server0 n Hl). congruence.
    + intros name1 name2 server1 server2 n Hl1 Hl2 Hp1 Hp2.
      apply Hback in Hl1 as (s1 & Hl1 & Heq1). apply Hback in Hl2 as (s2 & Hl2 & Heq2).
      apply (Hdistinct name1 name2 s1 s2 n Hl1 Hl2); congruence.
Qed.

(** X9. One process per name. In every state reached by starts, stops
    and exit reports, every handle in the fleet map is that of a process
    the manager spawned, and two names never hold the same handle. *)
Theorem reachable_handles_distinct (cfg : config.Config) (s : State) :
  reachable launch cfg s → handles_distinct s.
Proof.
  apply (reachable_invariant launch handles_distinct).
  - split; simpl; intros *; by rewrite lookup_empty.
  - apply lifecycle_handles_distinct.
Qed.

End HandleProperties.

(** ** The status snapshot: the counts *)

Lemma GetStatus_loop_counts (entries : list (string * MinecraftServer))
    (status : ManagerStatus) :
  let status' :=
    foldl (λ status '(name, server),
             let serverStatus :=
               {| ss_Name := name; ss_Status := Status server; ss_Port := Port server |} in
             {| TotalServers := TotalServers status;
                Running := if String.eqb (Status server) "running"
                           then int_add (Running status) 1 else Running status;
                Stopped := if String.eqb (Status server) "running"
                           then Stopped status else int_add (Stopped status) 1;
                Servers := Servers status ++ [serverStatus];
                ms_BedrockPath := ms_BedrockPath status |})
          status entries in
  0 ≤ Running status → 0 ≤ Stopped status →
  Running status + Stopped status + Z.of_nat (length entries) < 2 ^ 63 →
  0 ≤ Running status' ∧ 0 ≤ Stopped status'
  ∧ Running status' + Stopped status'
    = Running status + Stopped status + Z.of_nat (length entries)
  ∧ TotalServers status' = TotalServers status
  ∧ Servers status'
    = Servers status
      ++ ((λ entry, {| ss_Name := entry.1; ss_Status := Status entry.2;
                       ss_Port := Port entry.2 |}) <$> entries).
Proof.
  revert status. induction entries as [| [name server] entries IH];
    intros status status' Hr Hs Hbound.
  { subst status'. simpl. rewrite app_nil_r. repeat split; lia. }
  subst status'. cbn [foldl]. rewrite length_cons in Hbound.
  assert (int_add (Running status) 1 = Running status + 1) as ->
    by (apply int_wrap_small; lia).
  assert (int_add (Stopped status) 1 = Stopped status + 1) as ->
    by (apply int_wrap_small; lia).
  destruct (String.eqb (Status server) "running");
    match goal with
    | |- context [foldl ?f ?a entries] =>
        specialize (IH a); cbn zeta in IH;
        cbn [Running Stopped TotalServers Servers] in IH
    end;
    (lapply IH; [clear IH; intros IH | lia]);
    (lapply IH; [clear IH; intros IH | lia]);
    (lapply IH; [clear IH; intros IH | lia]);
    destruct IH as (Hr' & Hs' & Hsum & Htotal & Hlist);
    cbn [length];
    (repeat split; [lia | lia | lia | done |]);
    rewrite Hlist, <- app_assoc; done.
Qed.

(** X10. The snapshot of [GetStatus] lists every tracked instance once,
    with its name, status and port, and its counts add up: running plus
    stopped is the total, which is the size of the fleet map. *)
Theorem GetStatus_counts_add_up (m : Manager) :
  Z.of_nat (size (servers m)) < 2 ^ 63 →
  Running (GetStatus m) + Stopped (GetStatus m) = TotalServers (GetStatus m)
  ∧ TotalServers (GetStatus m) = Z.of_nat (size (servers m))
  ∧ 0 ≤ Running (GetStatus m) ∧ 0 ≤ Stopped (GetStatus m)
  ∧ Servers (GetStatus m)
    = (λ entry, {| ss_Name := entry.1; ss_Status := Status entry.2;
                   ss_Port := Port entry.2 |}) <$> map_to_list (servers m).
Proof.
  intros Hsize. unfold GetStatus.
  pose proof (GetStatus_loop_counts (map_to_list (servers m))
                {| TotalServers := Z.of_nat (size (servers m)); Running := 0;
                   Stopped := 0; Servers := []; ms_BedrockPath := bedrockPath m |})
    as Hloop.
  cbn zeta in Hloop. cbn [Running Stopped TotalServers Servers] in Hloop.
  rewrite length_map_to_list in Hloop.
  destruct Hloop as (Hr & Hs & Hsum & Htotal & Hlist); [lia | lia | lia |].
  rewrite Htotal. cbn [TotalServers Servers app] in *. repeat split; try done; lia.
Qed.

(** ** The port reclaimer: what a call does to the host *)

Lemma on_signal_interrupt_idem (p : Proc) :
  on_signal Interrupt (on_signal Interrupt p) = on_signal Interrupt p.
Proof. destruct p as [? ? [] []]; reflexivity. Qed.

Lemma on_signal_interrupt_dead (p : Proc) :
  alive p = false → on_signal Interrupt p = p.
Proof. destruct p as [? ? [] ?]; [done | reflexivity]. Qed.

Lemma deliver_not_running (target : Z) (h : Host) :
  is_running target h = false → deliver Interrupt target h = h.
Proof.
  destruct h as [ps works msg]. unfold is_running, deliver. simpl. intros Hdead.
  f_equal. induction ps as [| p ps IH]; [done |].
  simpl in Hdead. apply orb_false_iff in Hdead as [Hp Hps].
  rewrite fmap_cons, IH by done. f_equal.
  destruct (pid p =? target); [| done].
  by apply on_signal_interrupt_dead.
Qed.

(** The body of the loop, whatever the process does: the host is the one
    in which the target got the interrupt, and the log says "gracefully
    terminated". *)
Lemma reclaimProcess_effect (h : Host) (log : list ReclaimEvent) (target : Z) :
  reclaimProcess (h, log) target
  = (deliver Interrupt target h,
     log ++ [SentInterrupt target; LogGracefullyTerminated target]).
Proof.
  unfold reclaimProcess, Process_Signal.
  destruct (is_running target h) eqn:Hrunning.
  - by rewrite <- app_assoc.
  - rewrite deliver_not_running by done. by rewrite <- app_assoc.
Qed.

Lemma interrupted_nil (h : Host) : interrupted [] h = h.
Proof.
  destruct h as [ps works msg]. unfold interrupted. simpl. f_equal.
  rewrite <- (list_fmap_id ps) at 2. by apply list_fmap_ext.
Qed.

Lemma reclaim_loop_effect (pids : list Z) :
  ∀ (h : Host) (log : list ReclaimEvent),
    foldl reclaimProcess (h, log) pids
    = (interrupted pids h,
       log ++ (pids ≫= λ target, [SentInterrupt target; LogGracefullyTerminated target])).
Proof.
  induction pids as [| target pids IH]; intros h log.
  - simpl. by rewrite app_nil_r, interrupted_nil.
  - cbn [foldl]. rewrite reclaimProcess_effect, IH.
    f_equal; [| by rewrite <- app_assoc].
    destruct h as [ps works msg]. unfold interrupted, deliver. simpl. f_equal.
    rewrite <- list_fmap_compose. apply list_fmap_ext. intros _ p _. simpl.
    destruct (Z.eqb_spec (pid p) target) as [-> | Hne].
    + rewrite (bool_decide_eq_true_2 (target ∈ target :: pids)) by by left.
      assert (pid (on_signal Interrupt p) = pid p) as Hpid by done.
      case_bool_decide; [by rewrite on_signal_interrupt_idem | done].
    + destruct (bool_decide (pid p ∈ pids)) eqn:Hin.
      * apply bool_decide_eq_true in Hin.
        by rewrite bool_decide_eq_true_2 by by right.
      * apply bool_decide_eq_false in Hin.
        rewrite bool_decide_eq_false_2; [done |].
        intros [? | ?]%elem_of_cons; done.
Qed.

Lemma lsof_error_message (port : Z) (h : Host) (e : error) :
  lsof_works h = true → lsof port h = Err e → e = "exit status 1".
Proof.
  unfold lsof. intros ->. destruct (pid <$> filter _ _); [by intros [= <-] | done].
Qed.

(** The whole effect of a call that can run [lsof]: no error; the
    processes that [lsof] listed for the port got the interrupt; the log
    has, per listed pid, the interrupt and "gracefully terminated", then
    the warning if the port is still in use. *)
Lemma killProcessesOnPort_spec (port : Z) (h : Host) :
  lsof_works h = true →
  killProcessesOnPort port h
  = (None, interrupted (occupants port h) h,
     (occupants port h ≫= λ target, [SentInterrupt target; LogGracefullyTerminated target])
     ++ match lsof port (interrupted (occupants port h) h) with
        | Ok _ => if bool_decide (occupants port h = []) then [] else [LogStillInUse port]
        | Err _ => []
        end).
Proof.
  intros Hworks. unfold killProcessesOnPort, occupants.
  destruct (lsof port h) as [pids | e] eqn:Hlsof.
  - case_bool_decide as Hlen.
    + apply nil_length_inv in Hlen as ->. by rewrite interrupted_nil, Hlsof.
    + rewrite reclaim_loop_effect. simpl.
      rewrite bool_decide_eq_false_2 by (intros ->; done).
      destruct (lsof port (interrupted pids h)); [done | by rewrite app_nil_r].
  - rewrite (lsof_error_message port h e Hworks Hlsof), interrupted_nil, Hlsof.
    reflexivity.
Qed.

Lemma killProcessesOnPort_no_lsof (port : Z) (h : Host) :
  lsof_works h = false →
  killProcessesOnPort port h
  = (if strings_Contains (lsof_error h) "exit status 1" then None
     else Some "failed to check processes on port", h, []).
Proof.
  intros Hworks. unfold killProcessesOnPort, lsof. rewrite Hworks.
  by destruct (strings_Contains _ _).
Qed.

(** [strings.Contains] holds of a string that starts with the substring. *)
Lemma strings_Contains_prefix (substr rest : string) :
  strings_Contains (substr +:+ rest) substr = true.
Proof.
  unfold strings_Contains. apply bool_decide_eq_true.
  destruct (substr +:+ rest) as [| b s2] eqn:Happ.
  - destruct substr; [by eexists | discriminate Happ].
  - cbn [String.index]. rewrite <- Happ, prefix_app. by eexists.
Qed.

(** X11. What a call does to the host: every process whose pid [lsof]
    listed for the port has received the interrupt (it is gone if it was
    running and exits on interrupts, and is as before otherwise), and
    every other process is untouched. *)
Theorem killProcessesOnPort_host (port : Z) (h : Host) :
  (killProcessesOnPort port h).1.2 = interrupted (occupants port h) h.
Proof.
  destruct (lsof_works h) eqn:Hworks.
  - by rewrite killProcessesOnPort_spec.
  - rewrite killProcessesOnPort_no_lsof by done. simpl.
    unfold occupants, lsof. by rewrite Hworks, interrupted_nil.
Qed.

(** X12. [killProcessesOnPort] returns an error exactly when its first
    [lsof] fails with an error whose text does not contain "exit status 1";
    a process that cannot be signalled and a failing re-check are never
    reported. The test is on the text: a failure whose message starts with
    "exit status 1" (exit status 1, but also 10 or 127) is taken for "no
    process found" and the call returns [nil]. Whenever [lsof] fails, the
    call has signalled nothing and logged nothing. *)
Theorem killProcessesOnPort_fails_iff (port : Z) (h : Host) :
  ((killProcessesOnPort port h).1.1 ≠ None
   ↔ lsof_works h = false ∧ strings_Contains (lsof_error h) "exit status 1" = false)
  ∧ (∀ rest, lsof_works h = false → lsof_error h = "exit status 1" +:+ rest →
       (killProcessesOnPort port h).1.1 = None)
  ∧ (lsof_works h = false →
     (killProcessesOnPort port h).1.2 = h ∧ (killProcessesOnPort port h).2 = []).
Proof.
  destruct (lsof_works h) eqn:Hworks.
  - rewrite killProcessesOnPort_spec by done. simpl.
    split; [| done]. split; [done | by intros [? _]].
  - rewrite killProcessesOnPort_no_lsof by done. simpl. split; [| split; [| done]].
    + destruct (strings_Contains _ _); split; try done. by intros [_ ?].
    + intros rest _ ->. by rewrite strings_Contains_prefix.
Qed.

Lemma occupants_listing (port : Z) (h : Host) :
  lsof_works h = true →
  occupants port h = pid <$> filter (λ p, alive p = true ∧ port ∈ bound p) (procs h).
Proof.
  intros Hworks. unfold occupants, lsof. rewrite Hworks.
  by destruct (pid <$> filter _ _).
Qed.

(** X13. When every process that holds the port exits on an interrupt,
    the port is free after the call: [lsof] lists nothing for it and no
    warning is logged. *)
Theorem killProcessesOnPort_frees_polite (port : Z) (h : Host) :
  lsof_works h = true →
  (∀ p, p ∈ procs h → alive p = true → port ∈ bound p → exits_on_interrupt p = true) →
  lsof port (killProcessesOnPort port h).1.2 = Err "exit status 1"
  ∧ LogStillInUse port ∉ (killProcessesOnPort port h).2.
Proof.
  intros Hworks Hpolite.
  assert (lsof port (interrupted (occupants port h) h) = Err "exit status 1") as Hfree.
  { unfold lsof at 1. simpl. rewrite Hworks.
    assert (filter (λ p, alive p = true ∧ port ∈ bound p)
              ((λ p, if bool_decide (pid p ∈ occupants port h)
                     then on_signal Interrupt p else p) <$> procs h) = []) as ->; [| done].
    apply elem_of_nil_inv. intros x [[Halive Hbound] Hx]%list_elem_of_filter.
    apply list_elem_of_fmap in Hx as (p & -> & Hp).
    case_bool_decide as Hlisted.
    - destruct p as [? ? [] []] eqn:Heq; simpl in *; try done.
      by specialize (Hpolite _ Hp eq_refl Hbound).
    - apply Hlisted. rewrite occupants_listing by done.
      apply list_elem_of_fmap. exists p. split; [done |].
      by apply list_elem_of_filter. }
  rewrite killProcessesOnPort_spec by done. simpl. rewrite Hfree. split; [done |].
  rewrite app_nil_r. intros (target & Hin & _)%list_elem_of_bind.
  apply elem_of_cons in Hin as [? | Hin]; [done |].
  by apply list_elem_of_singleton in Hin.
Qed.

(** ** The archive assembler: clean-up, missing layers, the whole run *)

Lemma delete_layers_lookup (layers : list nat) (p : string) :
  ∀ (fs : FS),
    foldl (λ fs i, delete (layerFile i) fs) fs layers !! p
    = if decide (p ∈ layerFile <$> layers) then None else fs !! p.
Proof.
  induction layers as [| i layers IH]; intros fs; [done |].
  cbn [foldl]. rewrite IH, fmap_cons.
  destruct (decide (p = layerFile i)) as [-> | Hne].
  - rewrite lookup_delete_eq. rewrite (decide_True (P := _ ∈ _ :: _)) by by left.
    by case_decide.
  - rewrite lookup_delete_ne by done.
    case_decide as Hin; case_decide as Hin'; try done.
    + exfalso. apply Hin'. by right.
    + apply elem_of_cons in Hin' as [? | ?]; done.
Qed.

Lemma lookup_cleanupLayers (fs : FS) (p : string) :
  cleanupLayers fs !! p
  = if decide (p = recombinedFile) then None
    else if under extractDir p then None
    else if decide (p ∈ layerFile <$> seq 0 10) then None
    else fs !! p.
Proof.
  unfold cleanupLayers. cbn zeta. case_decide as Hrecombined.
  - subst p. apply lookup_delete_eq.
  - rewrite lookup_delete_ne by done. rewrite lookup_os_RemoveAll.
    destruct (under extractDir p); [done |]. apply delete_layers_lookup.
Qed.

(** X14. [cleanupLayers] removes the ten layer files, the extraction
    directory with every file below it, and the recombined file, whether
    they were there or not; every other file is left as it was. *)
Theorem cleanupLayers_removes (fs : FS) :
  (∀ i, (i < 10)%nat → cleanupLayers fs !! layerFile i = None)
  ∧ cleanupLayers fs !! recombinedFile = None
  ∧ (∀ p, under extractDir p = true → cleanupLayers fs !! p = None)
  ∧ ∀ p, (∀ i, (i < 10)%nat → p ≠ layerFile i) → p ≠ recombinedFile →
         under extractDir p = false →
         cleanupLayers fs !! p = fs !! p.
Proof.
  split; [| split; [| split]].
  - intros i Hi. rewrite lookup_cleanupLayers.
    rewrite decide_False by apply layerFile_not_recombined.
    rewrite layerFile_not_extracted. rewrite decide_True; [done |].
    apply list_elem_of_fmap. exists i. split; [done |]. apply elem_of_seq. lia.
  - rewrite lookup_cleanupLayers. by rewrite decide_True.
  - intros p Hunder. rewrite lookup_cleanupLayers, Hunder. by case_decide.
  - intros p Hlayer Hrecombined Hout. rewrite lookup_cleanupLayers, Hout.
    rewrite decide_False by done. rewrite decide_False; [done |].
    intros (i & -> & Hi)%list_elem_of_fmap. apply elem_of_seq in Hi.
    by apply (Hlayer i); [lia |].
Qed.

Section AssemblerRuns.

Variable sha256 : list byte → list byte.

(** X15. The integrity check passes exactly when the archive and the
    recombined file are both there and have the same SHA-256 digest. *)
Theorem verifyIntegrity_passes_iff (fs : FS) :
  verifyIntegrity sha256 fs = None
  ↔ ∃ original recombined,
      fs !! bedrockArchive = Some original ∧ fs !! recombinedFile = Some recombined
      ∧ sha256 original = sha256 recombined.
Proof.
  unfold verifyIntegrity, calculateFileHash. split.
  - destruct (fs !! bedrockArchive) as [original |]; [| done].
    destruct (fs !! recombinedFile) as [recombined |]; [| done].
    destruct (String.eqb _ _) eqn:Hhash; [| done]. intros _.
    apply String.eqb_eq, hex_EncodeToString_inj in Hhash. by exists original, recombined.
  - intros (original & recombined & -> & -> & ->). by rewrite String.eqb_refl.
Qed.

Lemma appendLayers_missing (layers : list nat) :
  ∀ (output : list byte) (fs : FS),
    (∃ i, i ∈ layers ∧ fs !! layerFile i = None) →
    ∃ fs', appendLayers layers output fs = (Some "layer file not found", fs').
Proof.
  induction layers as [| i layers IH]; intros output fs (j & Hj & Hmissing).
  { by apply elem_of_nil in Hj. }
  cbn [appendLayers]. destruct (fs !! layerFile i) as [layer |] eqn:Hlayer; [| by eexists].
  apply IH. exists j. split.
  - apply elem_of_cons in Hj as [-> | Hj]; [congruence | done].
  - rewrite lookup_insert_ne; [done |]. intros Heq. symmetry in Heq.
    by apply layerFile_not_recombined in Heq.
Qed.

(** X16. A missing layer file is an error of [recombineLayers], before
    any hash is computed. *)
Theorem recombineLayers_missing_layer (disk : FS) (i : nat) :
  (i < 10)%nat →
  disk !! layerFile i = None →
  ∃ disk', recombineLayers sha256 disk = (Some "layer file not found", disk').
Proof.
  intros Hi Hmissing. unfold recombineLayers.
  destruct (appendLayers_missing (seq 0 10) [] (<[recombinedFile := []]> disk))
    as [disk' ->]; [| by eexists].
  exists i. split; [apply elem_of_seq; lia |].
  rewrite lookup_insert_ne; [done |]. intros Heq. symmetry in Heq.
  by apply layerFile_not_recombined in Heq.
Qed.

Variable filepath_Abs : string → result string.
Variable extract_tools : list byte → FS → FS * option error.

(** X17. The whole initialisation on an archive that nobody touches: the
    split, the recombination and the integrity check succeed for every
    payload and every hash function, so the result is decided by the
    extraction alone. When that succeeds, the manager gets the absolute
    form of the fixed path [./bedrock-server-extracted/bedrock_server],
    wherever below the directory the tools have left the executable; the
    archive is as it was, the recombined file equals it, layer [i] holds
    the [i]-th range, the extraction directory holds what the tools have
    left, and every file outside it, other than the layers and the
    recombined file, is as it was. *)
Theorem initialize_intact_archive (m : Manager) (fs : FS) (data : list byte)
    (written : FS) (absPath : string) :
  fs !! bedrockArchive = Some data →
  Z.of_nat (length data) < 2 ^ 63 →
  let disk := <[recombinedFile := data]> (splitArchive bedrockArchive (cleanupLayers fs)).2 in
  extract_tools data disk = (written, None) →
  filepath_Abs "./bedrock-server-extracted/bedrock_server" = Ok absPath →
  ∃ fs',
    initializeBedrockServer sha256 filepath_Abs extract_tools (λ fs, fs) m fs
    = (None, set_bedrockPath absPath m, fs')
    ∧ fs' !! bedrockArchive = Some data
    ∧ fs' !! recombinedFile = Some data
    ∧ (∀ i, (i < 10)%nat → fs' !! layerFile i = Some (chunk_of data i))
    ∧ (∀ rel, fs' !! ((extractDir +:+ "/") +:+ rel) = written !! rel)
    ∧ ∀ p, (∀ i, (i < 10)%nat → p ≠ layerFile i) → p ≠ recombinedFile →
           under extractDir p = false →
           fs' !! p = fs !! p.
Proof.
  intros Harchive Hsize disk Hextract Habs.
  assert (cleanupLayers fs !! bedrockArchive = Some data) as Hclean
    by (by rewrite cleanupLayers_keeps_archive).
  destruct (splitArchive_layers (cleanupLayers fs) data Hclean Hsize)
    as (fs1 & Hsplit & Hlayers & Hother).
  subst disk. rewrite Hsplit in Hextract. cbn [snd] in Hextract.
  set (disk := <[recombinedFile := data]> fs1) in *.
  assert (fs1 !! bedrockArchive = Some data) as Harchive1.
  { rewrite Hother; [done |]. intros i _ Heq. symmetry in Heq.
    by apply layerFile_not_archive in Heq. }
  exists (replace_below extractDir written disk).
  split; [| split; [| split; [| split; [| split]]]].
  - unfold initializeBedrockServer. rewrite Harchive, Hsplit.
    rewrite (recombine_output sha256 fs1 (chunk_of data) Hlayers), chunks_concat.
    cbn zeta.
    rewrite (verifyIntegrity_same sha256 _ data);
      [| by rewrite lookup_insert_ne | by rewrite lookup_insert_eq].
    unfold extractArchive. fold disk.
    assert (disk !! extractDir = None) as ->.
    { subst disk. rewrite lookup_insert_ne by done.
      rewrite Hother by (intros i _ Heq; discriminate Heq).
      rewrite lookup_cleanupLayers. by rewrite decide_False. }
    assert (disk !! recombinedFile = Some data) as -> by apply lookup_insert_eq.
    by rewrite Hextract, Habs.
  - rewrite lookup_replace_below_outside by done. subst disk.
    by rewrite lookup_insert_ne.
  - rewrite lookup_replace_below_outside by done. subst disk.
    by rewrite lookup_insert_eq.
  - intros i Hi. rewrite lookup_replace_below_outside by apply layerFile_not_extracted.
    subst disk. rewrite lookup_insert_ne by (symmetry; apply layerFile_not_recombined).
    by apply Hlayers.
  - intros rel. apply lookup_replace_below_inside.
  - intros p Hlayer Hrecombined Hout. rewrite lookup_replace_below_outside by done.
    subst disk. rewrite lookup_insert_ne by done. rewrite Hother by done.
    rewrite lookup_cleanupLayers, Hout. rewrite decide_False by done.
    rewrite decide_False; [done |].
    intros (i & -> & Hi)%list_elem_of_fmap. apply elem_of_seq in Hi.
    by apply (Hlayer i); [lia |].
Qed.

Variable interfere : FS → FS.
Variable launch : nat → StartOutcome.

Lemma initialize_keeps_fleet (m : Manager) (fs : FS) :
  servers (initializeBedrockServer sha256 filepath_Abs extract_tools interfere m fs).1.2
  = servers m.
Proof.
  unfold initializeBedrockServer. by repeat case_match.
Qed.

(** X18. [Start] leaves no instance behind. Whenever it returns (the
    initialisation failed, or the context was cancelled after any number
    of ticks), the fleet map is empty, provided it was empty at the call,
    as it is for a new manager. *)
Theorem Start_returns_with_empty_fleet (initial : Poll) (ticks : list Poll)
    (m : Manager) (w : World) (fs : FS) (s' : State) (fs' : FS) :
  servers m = ∅ →
  Start sha256 filepath_Abs extract_tools interfere launch initial ticks (m, w) fs
    = Returns (s', fs') →
  servers s'.1 = ∅.
Proof.
  intros Hempty. unfold Start.
  pose proof (initialize_keeps_fleet m fs) as Hinit.
  destruct (initializeBedrockServer _ _ _ _ m fs) as [[[e |] m1] fs1]; simpl in Hinit.
  - intros [= <- _]. simpl. congruence.
  - destruct (NewTicker_panics _); [done |].
    destruct (pollLoop launch (initial :: ticks) (m1, cleanupPortsOnStartup w))
      as [s1 | msg]; [| done].
    intros [= <- _]. apply stopAllServers_effect.
Qed.

End AssemblerRuns.

(** ** The search for the executable *)

Lemma Tree_induction (P : Tree → Prop) :
  (∀ kind, P (Leaf kind)) →
  (∀ entries, Forall (λ entry, P entry.2) entries → P (Dir entries)) →
  (∀ e, P (Unreadable e)) →
  (∀ e, P (Missing e)) →
  ∀ t, P t.
Proof.
  intros Hleaf Hdir Hunreadable Hmissing. fix IH 1.
  intros [kind | entries | e | e]; [apply Hleaf | | apply Hunreadable | apply Hmissing].
  apply Hdir. induction entries as [| [n t'] entries IHentries]; constructor.
  - apply IH.
  - exact IHentries.
Qed.

Section SearchProperties.

Variable filepath_Join : string → string → string.

(** The walk with the closure of [findBedrockExecutable]: it stops with
    [SkipAll] at the first entry of that name that is not a directory and
    has then captured its path, or with the error of the first entry that
    cannot be read; else it comes back with [found] as it was. *)
Lemma walk_finds_first (t : Tree) :
  ∀ (path name found : string),
    walk filepath_Join
         (λ (path : string) (info : FileInfo) (err : option error) (found : string),
            match err, info with
            | Some e, _ => (found, WError e)
            | None, Some (name, isDir) =>
                if negb isDir && String.eqb name "bedrock_server"
                then (path, WSkipAll)
                else (found, WNil)
            | None, None => (found, WNil)
            end)
         path name t found
    = match hits filepath_Join path name t with
      | [] => (found, WNil)
      | Found p :: _ => (p, WSkipAll)
      | Failed e :: _ => (found, WError e)
      end.
Proof.
  induction t as [kind | entries IH | e | e] using Tree_induction;
    intros path name found; [| | done | done].
  - cbn [walk hits negb andb]. by destruct (String.eqb name "bedrock_server").
  - cbn [walk hits negb andb]. revert found.
    induction IH as [| [n t'] entries Hentry _ IHentries]; intros found; [done |].
    cbn zeta. rewrite Hentry. cbn [snd].
    destruct (hits filepath_Join (filepath_Join path n) n t') as [| [p | e] rest] eqn:Hhits.
    + cbn [app]. rewrite <- IHentries. by destruct t'.
    + by destruct t'.
    + by destruct t'.
Qed.

(** X19. [findBedrockExecutable] returns what the walk meets first, in the
    order of [filepath.Walk] (a directory before its entries, the entries
    by name, their paths made with [filepath.Join]): the path of an entry
    named [bedrock_server] that is not a directory, be it a regular
    file, a symbolic link or a special file, or the error of an entry
    that cannot be read. When the tree has neither, it returns the
    not-found error; a directory of that name is not a match. *)
Theorem findBedrockExecutable_first (dir dirName : string) (t : Tree) :
  findBedrockExecutable filepath_Join dir dirName t
  = match hits filepath_Join dir dirName t with
    | [] => Err "bedrock_server executable not found in extracted directory"
    | Found p :: _ =>
        if String.eqb p ""
        then Err "bedrock_server executable not found in extracted directory"
        else Ok p
    | Failed e :: _ => Err e
    end.
Proof.
  unfold findBedrockExecutable, filepath_Walk. rewrite walk_finds_first.
  by destruct (hits filepath_Join dir dirName t) as [| [p | e] rest].
Qed.

End SearchProperties.

(** ** Loading the configuration *)
Section LoadProperties.

Variable os_Getenv : string → string.
Variable os_ReadFile : string → ReadResult.
Variable yaml_Unmarshal : string → result FullConfig.
Variable strings_TrimSpace : string → string.

Lemma with_default_string_set (value fallback : string) :
  fallback ≠ "" → with_default_string value fallback ≠ "".
Proof.
  intros Hfallback. unfold with_default_string.
  destruct (String.eqb value "") eqn:Hvalue; [done |]. by apply String.eqb_neq.
Qed.

Lemma with_default_int_set (value fallback : Z) :
  fallback ≠ 0 → with_default_int value fallback ≠ 0.
Proof.
  intros Hfallback. unfold with_default_int.
  destruct (Z.eqb_spec value 0); done.
Qed.

(** X20. A configuration that [Load] returns has none of the settings
    with a default left at its zero value: branch, configuration path,
    polling interval, HTTP port, base directory, maximum of instances,
    executable path and memory limit are all set. *)
Theorem Load_fills_defaults (cfg : FullConfig) :
  Load os_Getenv os_ReadFile yaml_Unmarshal strings_TrimSpace = Ok cfg →
  config.Branch (full_GitHub cfg) ≠ ""
  ∧ config.ConfigPath (full_GitHub cfg) ≠ ""
  ∧ config.PollInterval (full_GitHub cfg) ≠ 0
  ∧ http_Port (full_HTTP cfg) ≠ 0
  ∧ config.BaseDir (full_Server cfg) ≠ ""
  ∧ config.MaxInstances (full_Server cfg) ≠ 0
  ∧ config.BedrockPath (full_Server cfg) ≠ ""
  ∧ config.MemoryLimit (full_Server cfg) ≠ "".
Proof.
  unfold Load. destruct (os_ReadFile _) as [data | |]; [| done | done].
  destruct (yaml_Unmarshal data) as [parsed | ?]; [| done].
  destruct (readBranchFile os_ReadFile strings_TrimSpace) as [branchFromFile | ?]; [| done].
  intros [= <-]. cbn.
  repeat split;
    try (by apply with_default_string_set); try (by apply with_default_int_set).
  destruct (String.eqb branchFromFile "") eqn:Hbranch; simpl.
  - by apply with_default_string_set.
  - by apply String.eqb_neq.
Qed.

(** X21. Defaults only fill what is missing, and the branch file wins.
    When the parsed file sets every setting that has a default, [Load]
    returns it as parsed, except that a non-blank branch file replaces
    the branch. *)
Theorem Load_keeps_explicit_settings (data : string) (parsed cfg : FullConfig) :
  os_ReadFile (with_default_string (os_Getenv "CONFIG_PATH") "config.yaml") = ReadOk data →
  yaml_Unmarshal data = Ok parsed →
  config.Branch (full_GitHub parsed) ≠ "" →
  config.ConfigPath (full_GitHub parsed) ≠ "" →
  config.PollInterval (full_GitHub parsed) ≠ 0 →
  http_Port (full_HTTP parsed) ≠ 0 →
  config.BaseDir (full_Server parsed) ≠ "" →
  config.MaxInstances (full_Server parsed) ≠ 0 →
  config.BedrockPath (full_Server parsed) ≠ "" →
  config.MemoryLimit (full_Server parsed) ≠ "" →
  Load os_Getenv os_ReadFile yaml_Unmarshal strings_TrimSpace = Ok cfg →
  full_HTTP cfg = full_HTTP parsed
  ∧ full_Server cfg = full_Server parsed
  ∧ ∃ branch,
      full_GitHub cfg
      = {| config.RepoOwner := config.RepoOwner (full_GitHub parsed);
           config.RepoName := config.RepoName (full_GitHub parsed);
           config.Branch := branch;
           config.ConfigPath := config.ConfigPath (full_GitHub parsed);
           config.PollInterval := config.PollInterval (full_GitHub parsed) |}
      ∧ match os_ReadFile "branch" with
        | ReadOk content =>
            branch = if String.eqb (strings_TrimSpace content) ""
                     then config.Branch (full_GitHub parsed)
                     else strings_TrimSpace content
        | _ => branch = config.Branch (full_GitHub parsed)
        end.
Proof.
  intros Hread Hparsed Hbranch Hpath Hpoll Hport Hbase Hmax Hbedrock Hmemory.
  unfold Load, readBranchFile. rewrite Hread, Hparsed.
  assert (∀ value fallback, value ≠ "" → with_default_string value fallback = value)
    as Hstring.
  { intros value fallback Hvalue. unfold with_default_string.
    apply String.eqb_neq in Hvalue. by rewrite Hvalue. }
  assert (∀ value fallback, value ≠ 0 → with_default_int value fallback = value) as Hint.
  { intros value fallback Hvalue. unfold with_default_int.
    by destruct (Z.eqb_spec value 0). }
  destruct parsed as [[owner repo branch path poll] [port] [base maxi bedrock memory firstRun]].
  simpl in *.
  destruct (os_ReadFile "branch") as [content | | ?] eqn:Hfile; [| | done].
  - intros [= <-]. simpl. rewrite !Hstring, !Hint by done.
    split; [done |]. split; [done |]. eexists. split; [reflexivity |].
    by destruct (String.eqb (strings_TrimSpace content) "").
  - intros [= <-]. simpl. rewrite !Hstring, !Hint by done.
    split; [done |]. split; [done |]. eexists. split; [reflexivity | done].
Qed.

End LoadProperties.

(** ** Instances *)

Lemma exit_report_lands_on_restarted_instance_witness :
  ∃ restarted new,
    servers (updateServers always_launched restart_A (fleet_A 5)).1 !! "A" = Some restarted
    ∧ Process restarted = Some new
    ∧ new ≠ 0%nat
    ∧ servers (monitorServer "A" 0%nat (Some "signal: killed")
                 (updateServers always_launched restart_A (fleet_A 5)).1) !! "A"
      = Some {| Config := Config restarted; Process := Some new; Status := "crashed";
                Port := Port restarted; MaxLogs := MaxLogs restarted |}.
Proof.
  assert (servers (fleet_A 5).1 !! config.Name (sample_spec "A" 19133) = Some entry_A)
    as Hlookup by reflexivity.
  assert (0 < spawns (fleet_A 5).2)%nat as Hold by (vm_compute; lia).
  assert (Config entry_A < length (cells (fleet_A 5).2))%nat as Hptr
    by (vm_compute; lia).
  assert (sample_spec "A" 19133 ∈ config.Servers restart_A) as Hspec
    by (right; left).
  assert (serverConfigChanged (deref (fleet_A 5).2 (Config entry_A)) (sample_spec "A" 19133)
          = true) as Hchanged by reflexivity.
  assert (Z.of_nat (length (config.Servers restart_A))
          < config.MaxInstances (config.Server (mconfig (fleet_A 5).1))) as Hmax
    by reflexivity.
  destruct (exit_report_lands_on_restarted_instance always_launched
              (fleet_A 5).1 (fleet_A 5).2 entry_A 0%nat restart_A
              (sample_spec "A" 19133) (Some "signal: killed")
              Hlookup eq_refl Hold Hptr Hspec Hchanged Hmax (λ n, eq_refl))
    as (restarted & new & Hrestarted & Hnew & Hfresh & _ & _ & Hreport).
  exists restarted, new. split; [exact Hrestarted |]. split; [exact Hnew |].
  split; [exact Hfresh | exact (Hreport 0%nat)].
Defined.

Lemma updateServers_tracks_only_desired_witness :
  "A" ∈ config.Name <$> config.Servers {| config.Servers := [sample_spec "A" 19133] |}.
Proof.
  apply (updateServers_tracks_only_desired always_launched
           {| config.Servers := [sample_spec "A" 19133] |} (fleet_A 5) "A").
  eexists. reflexivity.
Defined.

Lemma updateServers_keeps_unchanged_witness :
  servers (updateServers always_launched
             {| config.Servers := [sample_spec "A" 19132; sample_spec "B" 19140] |}
             ((fleet_A 5).1, (fleet_A 5).2)).1 !! "A"
  = Some entry_A.
Proof.
  assert (servers (fleet_A 5).1 !! "A" = Some entry_A) as Hlookup by reflexivity.
  assert (Config entry_A < length (cells (fleet_A 5).2))%nat as Hptr
    by (vm_compute; lia).
  assert ("A" ∈ config.Name
            <$> config.Servers
                  {| config.Servers := [sample_spec "A" 19132; sample_spec "B" 19140] |})
    as Hname by (by left).
  assert (∀ c, c ∈ [sample_spec "A" 19132; sample_spec "B" 19140] →
               config.Name c = "A" →
               serverConfigChanged (deref (fleet_A 5).2 (Config entry_A)) c = false)
    as Hsame.
  { intros c Hc Hc_name. apply elem_of_cons in Hc as [-> | Hc]; [reflexivity |].
    apply list_elem_of_singleton in Hc as ->. discriminate Hc_name. }
  exact (proj1 (updateServers_keeps_unchanged always_launched _ (fleet_A 5).1 (fleet_A 5).2
                  "A" entry_A Hlookup Hptr Hname Hsame)).
Defined.

Lemma failed_restart_loses_instance_witness :
  servers (updateServers first_launch_only
             {| config.Servers := [sample_spec "A" 19133] |}
             ((fleet_A 5).1, (fleet_A 5).2)).1 !! "A"
  = None.
Proof.
  assert (servers (fleet_A 5).1 !! config.Name (sample_spec "A" 19133) = Some entry_A)
    as Hlookup by reflexivity.
  assert (Config entry_A < length (cells (fleet_A 5).2))%nat as Hptr
    by (vm_compute; lia).
  assert (serverConfigChanged (deref (fleet_A 5).2 (Config entry_A)) (sample_spec "A" 19133)
          = true) as Hchanged by reflexivity.
  assert (Z.of_nat (size (servers (fleet_A 5).1))
          < config.MaxInstances (config.Server (mconfig (fleet_A 5).1))) as Hroom
    by reflexivity.
  assert (first_launch_only (spawns (fleet_A 5).2) ≠ Launched) as Hlaunch
    by (vm_compute; discriminate).
  assert (config.Name (sample_spec "A" 19133) ∉ config.Name <$> []) as Hrest
    by apply not_elem_of_nil.
  exact (proj1 (failed_restart_loses_instance first_launch_only (fleet_A 5).1 (fleet_A 5).2
                  entry_A (sample_spec "A" 19133) [] Hlookup Hptr Hchanged Hroom
                  Hlaunch Hrest)).
Defined.

Lemma updateServers_admits_in_order_witness :
  dom (servers (updateServers always_launched three_specs
                  (NewManager (sample_config 2 false), world0)).1)
  = list_to_set ["A"; "B"].
Proof.
  assert (NoDup (config.Name <$> config.Servers three_specs)) as Hnodup.
  { apply (bool_decide_unpack _). vm_compute. exact I. }
  exact (updateServers_admits_in_order always_launched (λ n, eq_refl) three_specs
           (NewManager (sample_config 2 false)) world0 eq_refl Hnodup).
Defined.

Lemma tick_twice_second_is_noop_witness :
  pollConfiguration always_launched (Ok "1111111111111111") (Err "timeout") (fleet_A 5)
  = Returns (fleet_A 5).
Proof.
  assert ("1111111111111111" ≠ "") as Hsha by discriminate.
  assert (pollConfiguration always_launched (Ok "1111111111111111")
            (Ok {| config.Servers := [sample_spec "A" 19132] |})
            (NewManager (sample_config 5 false), world0)
          = Returns (fleet_A 5)) as Hfirst by reflexivity.
  exact (tick_twice_second_is_noop always_launched "1111111111111111" _ (Err "timeout")
           _ (fleet_A 5) Hsha Hfirst).
Defined.

Lemma reachable_handles_distinct_witness : handles_distinct exited_A.
Proof.
  exact (reachable_handles_distinct always_launched (sample_config 5 false) exited_A
           exited_A_reachable).
Defined.

Lemma GetStatus_counts_add_up_witness :
  Running (GetStatus (fleet_A 5).1) + Stopped (GetStatus (fleet_A 5).1)
  = TotalServers (GetStatus (fleet_A 5).1).
Proof.
  assert (Z.of_nat (size (servers (fleet_A 5).1)) < 2 ^ 63) as Hsize by reflexivity.
  exact (proj1 (GetStatus_counts_add_up (fleet_A 5).1 Hsize)).
Defined.

Lemma killProcessesOnPort_frees_polite_witness :
  lsof 20000 (killProcessesOnPort 20000 polite_host).1.2 = Err "exit status 1".
Proof.
  assert (∀ p, p ∈ procs polite_host → alive p = true → 20000 ∈ bound p →
               exits_on_interrupt p = true) as Hpolite.
  { intros p Hp _ _. apply list_elem_of_singleton in Hp as ->. reflexivity. }
  exact (proj1 (killProcessesOnPort_frees_polite 20000 polite_host eq_refl Hpolite)).
Defined.

Lemma recombineLayers_missing_layer_witness :
  ∃ disk', recombineLayers toy_hash sample_fs = (Some "layer file not found", disk').
Proof.
  assert (sample_fs !! layerFile 0 = None) as Hmissing by reflexivity.
  exact (recombineLayers_missing_layer toy_hash sample_fs 0 ltac:(lia) Hmissing).
Defined.

Lemma initialize_intact_archive_witness :
  ∃ fs',
    initializeBedrockServer toy_hash toy_Abs toy_extract (λ fs, fs)
      (NewManager (sample_config 5 false)) sample_fs
    = (None,
       set_bedrockPath "/srv/./bedrock-server-extracted/bedrock_server"
         (NewManager (sample_config 5 false)),
       fs')
    ∧ fs' !! recombinedFile = Some payload25
    ∧ fs' !! "bedrock-server-extracted/bedrock_server" = Some payload25.
Proof.
  assert (sample_fs !! bedrockArchive = Some payload25) as Harchive by reflexivity.
  assert (Z.of_nat (length payload25) < 2 ^ 63) as Hsize by reflexivity.
  destruct (initialize_intact_archive toy_hash toy_Abs toy_extract
              (NewManager (sample_config 5 false)) sample_fs payload25
              {[ "bedrock_server" := payload25 ]}
              "/srv/./bedrock-server-extracted/bedrock_server"
              Harchive Hsize eq_refl eq_refl)
    as (fs' & Hinit & _ & Hrecombined & _ & Hextracted & _).
  exists fs'. split; [exact Hinit |]. split; [exact Hrecombined |].
  exact (Hextracted "bedrock_server").
Defined.

Lemma Start_returns_with_empty_fleet_witness : servers sample_run.1.1 = ∅.
Proof.
  assert (Start toy_hash toy_Abs toy_extract (λ fs, fs) always_launched sample_poll
            [sample_poll] (NewManager (sample_config 5 false), world0) sample_fs
          = Returns (sample_run.1, sample_run.2)) as Hstart
    by (vm_compute; reflexivity).
  exact (Start_returns_with_empty_fleet toy_hash toy_Abs toy_extract (λ fs, fs)
           always_launched sample_poll [sample_poll] (NewManager (sample_config 5 false))
           world0 sample_fs sample_run.1 sample_run.2 eq_refl Hstart).
Defined.

Lemma Load_fills_defaults_witness :
  ∃ cfg,
    Load sample_Getenv sample_ReadFile sample_Unmarshal sample_TrimSpace = Ok cfg
    ∧ config.Branch (full_GitHub cfg) ≠ ""
    ∧ config.MaxInstances (full_Server cfg) ≠ 0.
Proof.
  eexists. split; [reflexivity |].
  destruct (Load_fills_defaults sample_Getenv sample_ReadFile sample_Unmarshal
              sample_TrimSpace _ eq_refl)
    as (Hbranch & _ & _ & _ & _ & Hmax & _).
  split; [exact Hbranch | exact Hmax].
Defined.

Lemma Load_keeps_explicit_settings_witness :
  ∃ cfg,
    Load sample_Getenv sample_ReadFile explicit_Unmarshal sample_TrimSpace = Ok cfg
    ∧ full_Server cfg = full_Server explicit_FullConfig.
Proof.
  eexists. split; [reflexivity |].
  assert (config.Branch (full_GitHub explicit_FullConfig) ≠ "") as H1 by discriminate.
  assert (config.ConfigPath (full_GitHub explicit_FullConfig) ≠ "") as H2 by discriminate.
  assert (config.PollInterval (full_GitHub explicit_FullConfig) ≠ 0) as H3 by discriminate.
  assert (http_Port (full_HTTP explicit_FullConfig) ≠ 0) as H4 by discriminate.
  assert (config.BaseDir (full_Server explicit_FullConfig) ≠ "") as H5 by discriminate.
  assert (config.MaxInstances (full_Server explicit_FullConfig) ≠ 0) as H6 by discriminate.
  assert (config.BedrockPath (full_Server explicit_FullConfig) ≠ "") as H7 by discriminate.
  assert (config.MemoryLimit (full_Server explicit_FullConfig) ≠ "") as H8 by discriminate.
  exact (proj1 (proj2 (Load_keeps_explicit_settings sample_Getenv sample_ReadFile
                         explicit_Unmarshal sample_TrimSpace "github: {}"
                         explicit_FullConfig _ eq_refl eq_refl
                         H1 H2 H3 H4 H5 H6 H7 H8 eq_refl))).
Defined.

Lemma fetch_failure_fleet_untouched_witness :
  servers (fleet_A 5).1 = servers (fleet_A 5).1
  ∧ trace (emit [AGetConfig] (fleet_A 5).2) = trace (fleet_A 5).2 ++ [AGetConfig].
Proof.
  assert (pollConfiguration always_launched (Ok "2222222222222222") (Err "timeout")
            ((fleet_A 5).1, (fleet_A 5).2)
          = Returns ((fleet_A 5).1, emit [AGetConfig] (fleet_A 5).2)) as Hpoll
    by reflexivity.
  destruct (fetch_failure_fleet_untouched always_launched (fleet_A 5).1 (fleet_A 5).2
              (Ok "2222222222222222") "timeout" _ Hpoll) as (Hservers & _ & _).
  split; [exact Hservers | reflexivity].
Defined.

Lemma fetch_failure_fingerprint_kept_witness :
  lastCommitSHA (fleet_A 5).1 = "1111111111111111".
Proof.
  assert (pollConfiguration always_launched (Ok "2222222222222222") (Err "timeout")
            ((fleet_A 5).1, (fleet_A 5).2)
          = Returns ((fleet_A 5).1, emit [AGetConfig] (fleet_A 5).2)) as Hpoll
    by reflexivity.
  exact (fetch_failure_fingerprint_kept always_launched (fleet_A 5).1 (fleet_A 5).2
           (Ok "2222222222222222") "timeout" _ eq_refl Hpoll).
Defined.

Lemma running_count_always_zero_witness : Running (GetStatus exited_A.1) = 0.
Proof.
  exact (running_count_always_zero always_launched (sample_config 5 false) exited_A
           exited_A_reachable).
Defined.
